(** * Teams channel client: conversation references, payload translation,
      outgoing middleware

    A shallow embedding of [TeamsClient] and [outgoingHandler] (second
    module of [src/batch-update.ts]), followed by the package.json batch
    update of its first module.

    Conventions.
    - A JavaScript property that may be missing is an [option]; [None] is
      [undefined].
    - The objects [inMemoryConversationRefs] and [clients] are plain
      objects used as dictionaries: a [gmap] holds their own properties,
      and a key that is no own property is looked up in [Object.prototype].
    - Every method runs in a state-and-exception monad over the client and
      the services it talks to; each observable call on a collaborator
      (key-value store, logger, event bus, Bot Framework adapter, [next]) is
      appended to a trace. *)

From stdpp Require Import base option list strings gmap fin_maps pretty.

Local Open Scope string_scope.
Local Open Scope list_scope.

(** ** JavaScript helpers *)

(** Truthiness of a string-valued property: [undefined] and [''] are falsy. *)
Definition truthy_string (v : option string) : bool :=
  match v with
  | None => false
  | Some s => negb (String.eqb s "")
  end.

(** What a template literal prints for a string-valued property. *)
Definition template (v : option string) : string :=
  match v with
  | None => "undefined"
  | Some s => s
  end.

(** [_.includes(xs, x)] on an array of strings. *)
Definition includes (xs : list string) (x : string) : bool :=
  existsb (String.eqb x) xs.

(** The names a plain object inherits from [Object.prototype]. Each of
    them reads as a truthy value: a function, or the prototype itself for
    [__proto__]. *)
Definition Object_prototype : list string :=
  [ "constructor"; "__defineGetter__"; "__defineSetter__"; "hasOwnProperty";
    "__lookupGetter__"; "__lookupSetter__"; "isPrototypeOf";
    "propertyIsEnumerable"; "toString"; "valueOf"; "__proto__";
    "toLocaleString" ].

(** [key in Object.prototype] *)
Definition inherited (key : string) : bool := includes Object_prototype key.

(** [s.indexOf(prefix) !== 0], that is, [s] does not start with [prefix]. *)
Definition indexOf_is_not_0 (prefix s : string) : bool :=
  negb (String.prefix prefix s).

(** ** Data *)

(** [Partial<ConversationReference>]: the continuation handle. It is an
    object, hence always truthy. *)
Record ConversationReference := mkConversationReference {
  activityId : option string;
  user : option string;
  conversation_id : string;
  serviceUrl : option string
}.

(** A truthy value read from [inMemoryConversationRefs]: a handle that was
    put there, or the member of [Object.prototype] of that name. *)
Inductive JsRef :=
| Handle (r : ConversationReference)
| Inherited (name : string).

Coercion Handle : ConversationReference >-> JsRef.

(** The part of an [Activity] the client reads. *)
Record Activity := mkActivity {
  act_id : option string;
  act_text : option string;
  act_from_id : string;
  act_type : string;
  act_conversation_id : string;
  act_serviceUrl : option string
}.

(** A button of a carousel card, as found in [card.buttons]. *)
Record Button := mkButton {
  b_type : string;
  b_title : option string;
  b_url : option string;
  b_text : option string;
  b_payload : option string
}.

(** A carousel card, as found in [event.payload.elements]. *)
Record Card := mkCard {
  c_title : option string;
  c_picture : option string;
  c_buttons : list Button
}.

(** A quick reply, as found in [event.payload.quick_replies]. *)
Record Reply := mkReply {
  r_title : option string;
  r_payload : option string
}.

(** [event.payload], an object whose shape depends on the content type. *)
Record Payload := mkPayload {
  p_type : option string;
  p_text : option string;
  p_quick_replies : option (list Reply);
  p_elements : option (list Card)
}.

(** The part of [sdk.IO.Event] the client reads. *)
Record Event := mkEvent {
  e_type : string;
  e_channel : string;
  e_botId : string;
  e_threadId : string;
  e_payload : Payload
}.

(** The descriptor handed to [bp.IO.Event] by [_sendIncomingEvent]. *)
Record IncomingEvent := mkIncomingEvent {
  in_botId : string;
  in_channel : string;
  in_direction : string;
  in_payload_text : option string;
  in_preview : option string;
  in_threadId : string;
  in_target : string;
  in_type : string
}.

(** A [CardAction] object literal built by the translators. *)
Record CardAction := mkCardAction {
  a_type : string;
  a_title : option string;
  a_value : option string;
  a_text : option string;
  a_displayText : option string
}.

(** ** The Bot Framework card factory *)

Module CardFactory.

Record CardImage := mkCardImage { url : option string }.

Record HeroCard := mkHeroCard {
  title : option string;
  images : list CardImage;
  buttons : list (option CardAction)
}.

(** Modelled from the spec: [CardFactory.images] belongs to the botbuilder
    package, which is not among the sources. It turns a list of image
    URLs into the card's image list, one image per URL. *)
Definition mk_images (urls : list (option string)) : list CardImage :=
  map mkCardImage urls.

(** Modelled from the spec: [CardFactory.actions] belongs to the botbuilder
    package, which is not among the sources. The card's action list is
    the list it is given: an entry that is [undefined] stays, as a hole,
    in its position. *)
Definition actions (acts : list (option CardAction)) : list (option CardAction) :=
  acts.

(** Modelled from the spec: [CardFactory.heroCard] belongs to the
    botbuilder package, which is not among the sources. It assembles a
    visual card from a title, an image list and an action list. *)
Definition heroCard (t : option string) (imgs : list CardImage)
    (acts : list (option CardAction)) : HeroCard :=
  mkHeroCard t imgs acts.

End CardFactory.

Abbreviation Attachment := CardFactory.HeroCard.

(** [AttachmentLayoutTypes.Carousel] *)
Definition AttachmentLayoutTypes_Carousel : string := "carousel".

(** The value bound to [msg] in [sendOutgoingEvent]: either the raw payload
    or one of the three object literals the method builds. *)
Inductive Msg :=
| RawPayload (p : Payload)
| TypingMsg
| CarouselMsg (attachments : list Attachment) (attachmentLayout : string)
| ChoiceMsg (text : option string) (attachments : list Attachment).

(** [msg.type] *)
Definition msg_type (m : Msg) : option string :=
  match m with
  | RawPayload p => p_type p
  | TypingMsg => Some "typing"
  | CarouselMsg _ _ => Some "message"
  | ChoiceMsg _ _ => None
  end.

(** JavaScript exceptions. *)
Inductive JsError :=
| Error (message : string)
| TypeError (message : string).

Definition err_message (e : JsError) : string :=
  match e with
  | Error m => m
  | TypeError m => m
  end.

(** ** Payload translation *)

(** The callback of [card.buttons.map] in [_prepareCarouselPayload]: the
    [if]/[else if] chain has no final [else], so the callback returns
    [undefined] for any other button type. *)
Definition button_action (button : Button) : option CardAction :=
  if String.eqb (b_type button) "open_url" then
    Some {| a_type := "openUrl";
            a_value := b_url button;
            a_title := b_title button;
            a_text := None;
            a_displayText := None |}
  else if String.eqb (b_type button) "say_something" then
    Some {| a_type := "messageBack";
            a_title := b_title button;
            a_value := b_text button;
            a_text := b_text button;
            a_displayText := b_text button |}
  else if String.eqb (b_type button) "postback" then
    Some {| a_type := "messageBack";
            a_title := b_title button;
            a_value := b_payload button;
            a_text := b_payload button;
            a_displayText := None |}
  else None.

(** The callback of [event.payload.elements.map]. *)
Definition card_attachment (card : Card) : Attachment :=
  let contentUrl := c_picture card in
  CardFactory.heroCard
    (c_title card)
    (CardFactory.mk_images [contentUrl])
    (CardFactory.actions (map button_action (c_buttons card))).

(** The callback of [event.payload.quick_replies.map]. *)
Definition reply_action (reply : Reply) : CardAction :=
  {| a_title := r_title reply;
     a_type := "messageBack";
     a_value := r_payload reply;
     a_text := r_payload reply;
     a_displayText := r_title reply |}.

(** A result or a thrown exception. *)
Inductive Outcome (A : Type) :=
| Returns (a : A)
| Throws (e : JsError).
Arguments Returns {A} a.
Arguments Throws {A} e.

(** [_prepareCarouselPayload]; reading [.map] off a missing [elements]
    throws a [TypeError]. *)
Definition _prepareCarouselPayload (event : Event) : Outcome Msg :=
  match p_elements (e_payload event) with
  | None => Throws (TypeError "Cannot read property 'map' of undefined")
  | Some elements =>
      Returns (CarouselMsg (map card_attachment elements)
                           AttachmentLayoutTypes_Carousel)
  end.

(** [_prepareChoicePayload]; reading [.map] off a missing [quick_replies]
    throws a [TypeError]. *)
Definition _prepareChoicePayload (event : Event) : Outcome Msg :=
  match p_quick_replies (e_payload event) with
  | None => Throws (TypeError "Cannot read property 'map' of undefined")
  | Some quick_replies =>
      Returns (ChoiceMsg
                 (p_text (e_payload event))
                 [CardFactory.heroCard
                    (Some "")
                    (CardFactory.mk_images [])
                    (CardFactory.actions (map (Some ∘ reply_action) quick_replies))])
  end.

(** ** The client and its collaborators *)

(** [new BotFrameworkAdapter({ appId, appPassword })] *)
Record BotFrameworkAdapter := mkAdapter {
  appId : string;
  appPassword : string
}.

Record Config := mkConfig {
  microsoftAppId : string;
  microsoftAppPassword : string
}.

(** The fields of a [TeamsClient]. An entry of [inMemoryConversationRefs]
    may hold [undefined]: [_getConversationRef] stores whatever the
    key-value store answered. *)
Record TeamsClient := mkTeamsClient {
  botId : string;
  config : Config;
  adapter : option BotFrameworkAdapter;
  inMemoryConversationRefs : gmap string (option ConversationReference)
}.

(** Calls on collaborators, in the order they are made. *)
Inductive Effect :=
| KvsGet (bot key : string)
| KvsSet (bot key : string) (value : ConversationReference)
| LoggerWarn (message : string)
| LoggerError (message : string) (err : JsError)
| SendEvent (ev : IncomingEvent)
| RouterPost (path : string)
| ContinueConversation (ref : JsRef)
| SendActivity (msg : Msg)
| Next (err : option JsError) (continueDefault : option bool).

(** What the client reaches through [bp], [router] and the adapter: the
    durable key-value store (with the error it raises while it is
    unavailable), what [router.getPublicPath()] resolves to or rejects
    with, the error the platform answers to a delivery, and the trace of
    calls made so far. *)
Record Services := mkServices {
  kvs : gmap (string * string) ConversationReference;
  kvs_failure : option JsError;
  publicPath : Outcome string;
  delivery_failure : JsRef → Msg → option JsError;
  trace : list Effect
}.

Record World := mkWorld {
  this : TeamsClient;
  bp : Services
}.

(** ** The monad of methods *)

Definition M (A : Type) : Type := World → Outcome A * World.

Definition ret {A} (a : A) : M A := λ w, (Returns a, w).

Definition throw {A} (e : JsError) : M A := λ w, (Throws e, w).

Definition bind {A B} (m : M A) (k : A → M B) : M B :=
  λ w, match m w with
       | (Returns a, w') => k a w'
       | (Throws e, w') => (Throws e, w')
       end.

(** [try { m } catch (err) { h err }] *)
Definition try_catch {A} (m : M A) (h : JsError → M A) : M A :=
  λ w, match m w with
       | (Returns a, w') => (Returns a, w')
       | (Throws e, w') => h e w'
       end.

(** A pure computation that may throw. *)
Definition lift {A} (o : Outcome A) : M A := λ w, (o, w).

Notation "'let*' x ':=' m 'in' k" := (bind m (λ x, k))
  (at level 10, x name, m at level 100, k at level 200).
Notation "m ';;' k" := (bind m (λ _, k))
  (at level 100, k at level 200, right associativity).

Definition emit (e : Effect) : M unit :=
  λ w, (Returns (),
        mkWorld (this w)
                (mkServices (kvs (bp w)) (kvs_failure (bp w)) (publicPath (bp w))
                            (delivery_failure (bp w)) (trace (bp w) ++ [e]))).

Definition get_this : M TeamsClient := λ w, (Returns (this w), w).

(** [object[key]] on a plain object with the given own properties: an own
    property is read as it is, also when it holds [undefined]; any other
    key is looked up in [Object.prototype]. *)
Definition plain_object_get (own : gmap string (option ConversationReference))
    (key : string) : option JsRef :=
  match own !! key with
  | Some value => Handle <$> value
  | None => if inherited key then Some (Inherited key) else None
  end.

(** [this.inMemoryConversationRefs[threadId]] *)
Definition read_ref (threadId : string) : M (option JsRef) :=
  λ w, (Returns (plain_object_get (inMemoryConversationRefs (this w)) threadId), w).

(** [this.inMemoryConversationRefs[threadId] = convRef] *)
Definition write_ref (threadId : string) (convRef : option ConversationReference) : M unit :=
  λ w, (Returns (),
        mkWorld (mkTeamsClient (botId (this w)) (config (this w)) (adapter (this w))
                   (<[threadId := convRef]> (inMemoryConversationRefs (this w))))
                (bp w)).

(** [this.adapter = a] *)
Definition set_adapter (a : BotFrameworkAdapter) : M unit :=
  λ w, (Returns (),
        mkWorld (mkTeamsClient (botId (this w)) (config (this w)) (Some a)
                   (inMemoryConversationRefs (this w)))
                (bp w)).

(** [await this.bp.kvs.get(bot, key)] *)
Definition kvs_get (bot key : string) : M (option ConversationReference) :=
  emit (KvsGet bot key);;
  λ w, match kvs_failure (bp w) with
       | Some e => (Throws e, w)
       | None => (Returns (kvs (bp w) !! (bot, key)), w)
       end.

(** [this.bp.kvs.set(bot, key, value)] *)
Definition kvs_set (bot key : string) (value : ConversationReference) : M unit :=
  emit (KvsSet bot key value);;
  λ w, match kvs_failure (bp w) with
       | Some e => (Throws e, w)
       | None =>
           (Returns (),
            mkWorld (this w)
                    (mkServices (<[(bot, key) := value]> (kvs (bp w)))
                                (kvs_failure (bp w)) (publicPath (bp w))
                                (delivery_failure (bp w)) (trace (bp w))))
       end.

(** [await turnContext.sendActivity(msg)] in the turn continued from [ref] *)
Definition sendActivity (ref : JsRef) (msg : Msg) : M unit :=
  emit (SendActivity msg);;
  λ w, match delivery_failure (bp w) ref msg with
       | Some e => (Throws e, w)
       | None => (Returns (), w)
       end.

(** Modelled from the spec: [BotFrameworkAdapter.continueConversation]
    belongs to the botbuilder package, which is not among the sources. It
    resumes the conversation designated by the handle and runs the callback
    in it; what the callback throws reaches the caller. Calling it on a
    client that was never initialised reads a property of [undefined]. *)
Definition continueConversation (ref : JsRef)
    (callback : M unit) : M unit :=
  let* self := get_this in
  match adapter self with
  | None => throw (TypeError "Cannot read property 'continueConversation' of undefined")
  | Some _ => emit (ContinueConversation ref);; callback
  end.

(** Modelled from the spec: [TurnContext.getConversationReference] belongs
    to the botbuilder package, which is not among the sources. The handle
    is extracted from the activity and carries its conversation identity. *)
Definition getConversationReference (activity : Activity) : ConversationReference :=
  {| activityId := act_id activity;
     user := Some (act_from_id activity);
     conversation_id := act_conversation_id activity;
     serviceUrl := act_serviceUrl activity |}.

(** ** Methods of [TeamsClient] *)

Definition outgoingTypes : list string := ["message"; "typing"; "carousel"; "text"].

Definition _getConversationRef (threadId : string) : M (option JsRef) :=
  let* convRef := read_ref threadId in
  match convRef with
  | Some convRef => ret (Some convRef)
  | None =>
      (* cache miss *)
      let* self := get_this in
      let* convRef := kvs_get (botId self) threadId in
      write_ref threadId convRef;;
      ret (Handle <$> convRef)
  end.

Definition _setConversationRef (threadId : string) (convRef : ConversationReference) : M unit :=
  let* held := read_ref threadId in
  match held with
  | Some _ => ret ()
  | None =>
      write_ref threadId (Some convRef);;
      let* self := get_this in
      kvs_set (botId self) threadId convRef
  end.

Definition _sendIncomingEvent (activity : Activity) (threadId : string) : M unit :=
  let text := act_text activity in
  let* self := get_this in
  emit (SendEvent {| in_botId := botId self;
                     in_channel := "teams";
                     in_direction := "incoming";
                     in_payload_text := text;
                     in_preview := text;
                     in_threadId := threadId;
                     in_target := act_from_id activity;
                     in_type := act_type activity |}).

(** The callback given to [adapter.processActivity] by the route that
    [initialize] registers. *)
Definition onTurn (activity : Activity) : M unit :=
  let conversationReference := getConversationReference activity in
  if negb (truthy_string (act_text activity)) then
    (* To prevent from emojis reactions to launch actual events *)
    ret ()
  else
    let threadId := conversation_id conversationReference in
    _setConversationRef threadId conversationReference;;
    _sendIncomingEvent activity threadId.

(** [await this.router.getPublicPath()] *)
Definition getPublicPath : M string := λ w, (publicPath (bp w), w).

Definition initialize : M unit :=
  let* self := get_this in
  set_adapter {| appId := microsoftAppId (config self);
                 appPassword := microsoftAppPassword (config self) |};;
  let* path := getPublicPath in
  (if indexOf_is_not_0 "https://" path then
     emit (LoggerWarn "Teams requires HTTPS to be setup to work properly. See EXTERNAL_URL botpress config.")
   else ret ());;
  emit (RouterPost "/api/messages").

(** [event.type === 'default' ? 'text' : event.type] *)
Definition messageType (event : Event) : string :=
  if String.eqb (e_type event) "default" then "text" else e_type event.

(** [msg.quick_replies && msg.quick_replies.length] *)
Definition has_quick_replies (p : Payload) : bool :=
  match p_quick_replies p with
  | Some (_ :: _) => true
  | _ => false
  end.

(** The [if]/[else if] chain of [sendOutgoingEvent] that rebinds [msg]. *)
Definition prepare_msg (event : Event) : Outcome Msg :=
  let msg := e_payload event in
  if bool_decide (p_type msg = Some "typing") then Returns TypingMsg
  else if bool_decide (p_type msg = Some "carousel") then _prepareCarouselPayload event
  else if has_quick_replies msg then _prepareChoicePayload event
  else Returns (RawPayload msg).

(** [new Error('Unsupported event type: ' + event.type)] *)
Definition unsupported_error (event : Event) : JsError :=
  Error ("Unsupported event type: " +:+ e_type event).

(** The statements of [sendOutgoingEvent] that follow
    [const ref = await this._getConversationRef(event.threadId)]. *)
Definition send_with_ref (event : Event) (ref : option JsRef) : M unit :=
  match ref with
  | None =>
      emit (LoggerWarn ("No message could be sent to MS Botframework with threadId: "
                        +:+ e_threadId event
                        +:+ " as there is no conversation reference"))
  | Some ref =>
      let* msg := lift (prepare_msg event) in
      continueConversation ref
        (try_catch (sendActivity ref msg)
           (λ err,
              let message :=
                "The following error occured when sending a payload of type "
                +:+ template (msg_type msg)
                +:+ " to MS Botframework: " +:+ err_message err in
              emit (LoggerError message err);;
              throw err))
  end.

Definition sendOutgoingEvent (event : Event) : M unit :=
  if negb (includes outgoingTypes (messageType event)) then
    throw (unsupported_error event)
  else
    let* ref := _getConversationRef (e_threadId event) in
    send_with_ref event ref.

(** ** The outgoing middleware *)

(** [Clients]: the dictionary of clients by bot id. *)
Record Bus := mkBus {
  clients : gmap string TeamsClient;
  services : Services
}.

(** [next(err, continueDefault)] on the bus. *)
Definition next (err : option JsError) (continueDefault : option bool)
    (b : Bus) : Bus :=
  mkBus (clients b)
        (mkServices (kvs (services b)) (kvs_failure (services b))
                    (publicPath (services b)) (delivery_failure (services b))
                    (trace (services b) ++ [Next err continueDefault])).

(** [client.sendOutgoingEvent(event)] when [client] is a member inherited
    from [Object.prototype]: it has no such method. *)
Definition not_a_client : JsError :=
  TypeError "client.sendOutgoingEvent is not a function".

(** A method call on the client registered under [bot]; the client is an
    object shared with the dictionary, so what the method changes in it is
    seen through the dictionary afterwards. *)
Definition call_on {A} (bot : string) (client : TeamsClient) (m : M A)
    (b : Bus) : Outcome A * Bus :=
  match m (mkWorld client (services b)) with
  | (r, w) => (r, mkBus (<[bot := this w]> (clients b)) (bp w))
  end.

Definition outgoingHandler (event : Event) (b : Bus) : Bus :=
  if negb (String.eqb (e_channel event) "teams") then
    next None None b
  else
    match clients b !! e_botId event with
    | None =>
        if inherited (e_botId event) then
          (* [clients[event.botId]] is an inherited member: truthy *)
          next None (Some false) (next (Some not_a_client) None b)
        else next None None b
    | Some client =>
        let b' :=
          match call_on (e_botId event) client (sendOutgoingEvent event) b with
          | (Returns _, b') => b'
          | (Throws err, b') => next (Some err) None b'
          end in
        next None (Some false) b'
    end.

Definition is_next (e : Effect) : bool :=
  match e with
  | Next _ _ => true
  | _ => false
  end.

(** The [next] calls recorded in a trace. *)
Definition next_calls (t : list Effect) : list Effect :=
  List.filter is_next t.

(** A call that reaches the Bot Framework adapter. *)
Definition is_adapter_call (e : Effect) : bool :=
  match e with
  | ContinueConversation _ | SendActivity _ => true
  | _ => false
  end.


(** ** Observations and sample data *)

(** What [this.inMemoryConversationRefs[threadId]] reads, when it is
    truthy. *)
Definition held (w : World) (threadId : string) : option JsRef :=
  plain_object_get (inMemoryConversationRefs (this w)) threadId.

(** The handle recorded for a thread in the in-process mapping, if any. *)
Definition recorded (w : World) (threadId : string) : option ConversationReference :=
  mjoin (inMemoryConversationRefs (this w) !! threadId).

(** The handle the durable store holds for a thread of this client's bot. *)
Definition stored (w : World) (threadId : string) : option ConversationReference :=
  kvs (bp w) !! (botId (this w), threadId).

(** The event with another [type]. *)
Definition with_type (t : string) (event : Event) : Event :=
  mkEvent t (e_channel event) (e_botId event) (e_threadId event) (e_payload event).

(** The warning logged for a thread without conversation reference. *)
Definition missing_ref_warning (threadId : string) : string :=
  "No message could be sent to MS Botframework with threadId: "
  +:+ threadId +:+ " as there is no conversation reference".

Definition handle_a : ConversationReference :=
  mkConversationReference (Some "act-1") (Some "alice") "19:thread" (Some "https://smba.example").

Definition handle_b : ConversationReference :=
  mkConversationReference (Some "act-2") (Some "bob") "19:thread" (Some "https://smba.example").

Definition fresh_client : TeamsClient :=
  mkTeamsClient "bot1" (mkConfig "app" "secret") (Some (mkAdapter "app" "secret")) ∅.

Definition empty_services : Services :=
  mkServices ∅ None (Returns "https://bot.example") (λ _ _, None) [].

Definition fresh_world : World := mkWorld fresh_client empty_services.

(** A process that has not seen the thread, while the store holds its handle. *)
Definition stored_only_world : World :=
  mkWorld fresh_client
          (mkServices {[ ("bot1", "19:thread") := handle_a ]} None
                      (Returns "https://bot.example") (λ _ _, None) []).

(** A platform that cannot deliver through a value that is no conversation
    reference. *)
Definition strict_platform (ref : JsRef) (msg : Msg) : option JsError :=
  match ref with
  | Handle _ => None
  | Inherited _ => Some (Error "Invalid conversation reference")
  end.

(** The same processes on such a platform. *)
Definition strict_world : World :=
  mkWorld fresh_client
          (mkServices ∅ None (Returns "https://bot.example") strict_platform []).


Definition text_payload : Payload := mkPayload (Some "text") (Some "hello") None None.

Definition text_event : Event := mkEvent "text" "teams" "bot1" "19:thread" text_payload.

Definition default_event : Event := mkEvent "default" "teams" "bot1" "19:thread" text_payload.

Definition constructor_event : Event :=
  mkEvent "text" "teams" "bot1" "constructor" text_payload.

Definition file_event : Event := mkEvent "file" "teams" "bot1" "19:thread" text_payload.

Definition two_card_carousel : Payload :=
  mkPayload (Some "carousel") None None
    (Some [ mkCard (Some "First") (Some "https://img.example/1.png")
              [ mkButton "open_url" (Some "Docs") (Some "https://docs.example") None None ];
            mkCard (Some "Second") (Some "https://img.example/2.png")
              [ mkButton "open_url" (Some "Blog") (Some "https://blog.example") None None ] ]).

Definition yes_no_payload : Payload :=
  mkPayload (Some "text") (Some "Continue?")
    (Some [ mkReply (Some "Yes") (Some "yes"); mkReply (Some "No") (Some "no") ]) None.

Definition odd_button_carousel : Payload :=
  mkPayload (Some "carousel") None None
    (Some [ mkCard (Some "Only") (Some "https://img.example/1.png")
              [ mkButton "open_url" (Some "Docs") (Some "https://docs.example") None None;
                mkButton "call" (Some "Call us") None None None;
                mkButton "postback" (Some "Buy") None None (Some "buy") ] ]).

Definition event_of (p : Payload) : Event := mkEvent "text" "teams" "bot1" "19:thread" p.

Definition reaction_activity : Activity :=
  mkActivity (Some "act-9") None "alice" "messageReaction" "19:thread" (Some "https://smba.example").

Definition empty_text_activity : Activity :=
  mkActivity (Some "act-9") (Some "") "alice" "message" "19:thread" (Some "https://smba.example").

Definition sample_bus : Bus := mkBus {[ "bot1" := fresh_client ]} empty_services.

(** A platform that answers every delivery with a timeout. *)
Definition timeout_services : Services :=
  mkServices {[ ("bot1", "19:thread") := handle_a ]} None
             (Returns "https://bot.example") (λ _ _, Some (Error "NetworkTimeout")) [].

Definition timeout_bus : Bus := mkBus {[ "bot1" := fresh_client ]} timeout_services.

Definition file_event_error : JsError := Error "Unsupported event type: file".

(** ** The life of a process *)

(** What can happen to a client during the life of its process: one of
    its methods is called and runs to its end before anything else
    happens, or the services change under it (another process writes the
    store, the store or the platform becomes unavailable). *)
Inductive Call :=
| Initialize
| OnTurn (activity : Activity)
| GetConversationRef (threadId : string)
| SetConversationRef (threadId : string) (convRef : ConversationReference)
| SendOutgoingEvent (event : Event)
| Outside (s : Services).

Definition perform (w : World) (c : Call) : World :=
  match c with
  | Initialize => (initialize w).2
  | OnTurn activity => (onTurn activity w).2
  | GetConversationRef threadId => (_getConversationRef threadId w).2
  | SetConversationRef threadId convRef => (_setConversationRef threadId convRef w).2
  | SendOutgoingEvent event => (sendOutgoingEvent event w).2
  | Outside s =>
      mkWorld (this w)
              (mkServices (kvs s) (kvs_failure s) (publicPath s)
                          (delivery_failure s) (trace (bp w)))
  end.

(** A computation respects a relation when every run relates the world it
    starts from to the world it ends in, whether it returns or throws. *)
Definition respects (R : World → World → Prop) {A} (m : M A) : Prop :=
  ∀ w : World, R w (m w).2.

(** What the in-process mapping holds for a thread stays as it is. *)
Definition keeps_held (w w' : World) : Prop :=
  ∀ (threadId : string) (h : JsRef),
    held w threadId = Some h → held w' threadId = Some h.

(** The trace only grows, and by no call of [next]. *)
Definition appends_no_next (w w' : World) : Prop :=
  ∃ t : list Effect, trace (bp w') = trace (bp w) ++ t ∧ next_calls t = [].

(** ** Calls that overlap

    The methods are [async]: a call is suspended at each [await] and other
    calls run in between. The one statement of the client that writes the
    in-process mapping after an [await] is the assignment that follows
    [await this.bp.kvs.get(...)] in [_getConversationRef]; this is the
    call that is split in two here. *)

(** What [kvs.get] resolves to or rejects with, once it was called. *)
Definition kvs_answer (bot key : string) : M (option ConversationReference) :=
  λ w, match kvs_failure (bp w) with
       | Some e => (Throws e, w)
       | None => (Returns (kvs (bp w) !! (bot, key)), w)
       end.

(** [_getConversationRef] up to [await this.bp.kvs.get(...)]: it returns
    what the mapping reads when that is truthy; otherwise it calls the
    store and is suspended, which is [None] here. *)
Definition _getConversationRef_begin (threadId : string) : M (option JsRef) :=
  let* convRef := read_ref threadId in
  match convRef with
  | Some convRef => ret (Some convRef)
  | None =>
      let* self := get_this in
      emit (KvsGet (botId self) threadId);;
      ret None
  end.

(** [_getConversationRef] from the point where [kvs.get] resolved to
    [convRef]. *)
Definition _getConversationRef_resume (threadId : string)
    (convRef : option ConversationReference) : M (option JsRef) :=
  write_ref threadId convRef;;
  ret (Handle <$> convRef).

(** A suspended lookup goes on with the answer of the store; when the
    lookup was made by [sendOutgoingEvent], the rest of that method
    follows. *)
Definition resume_lookup (threadId : string)
    (answer : Outcome (option ConversationReference)) (rest : option Event) : M unit :=
  let* convRef := lift answer in
  let* ref := _getConversationRef_resume threadId convRef in
  match rest with
  | Some event => send_with_ref event ref
  | None => ret ()
  end.

(** A client together with the threads whose lookup is suspended at
    [await this.bp.kvs.get(...)], one entry per suspended lookup. *)
Record Process := mkProcess {
  world : World;
  suspended : list string
}.

Fixpoint remove_first (x : string) (l : list string) : list string :=
  match l with
  | [] => []
  | y :: l' => if String.eqb x y then l' else y :: remove_first x l'
  end.

(** What happens next in a process: a call runs to its end, a lookup runs
    up to its [await], or a suspended lookup goes on with what the store
    answered, whenever that was. *)
Inductive Move :=
| Run (c : Call)
| BeginLookup (threadId : string)
| ResumeLookup (threadId : string)
    (answer : Outcome (option ConversationReference)) (rest : option Event).

Definition move (p : Process) (m : Move) : Process :=
  match m with
  | Run c => mkProcess (perform (world p) c) (suspended p)
  | BeginLookup threadId =>
      match _getConversationRef_begin threadId (world p) with
      | (Returns None, w) => mkProcess w (threadId :: suspended p)
      | (_, w) => mkProcess w (suspended p)
      end
  | ResumeLookup threadId answer rest =>
      if bool_decide (threadId ∈ suspended p) then
        mkProcess (resume_lookup threadId answer rest (world p)).2
                  (remove_first threadId (suspended p))
      else p
  end.

Definition play (p : Process) (moves : list Move) : Process :=
  foldl move p moves.


(** ** Further observations *)

(** The event [_sendIncomingEvent] builds for an activity received by the
    client of [bot]. *)
Definition incoming_event (bot : string) (activity : Activity) : IncomingEvent :=
  {| in_botId := bot;
     in_channel := "teams";
     in_direction := "incoming";
     in_payload_text := act_text activity;
     in_preview := act_text activity;
     in_threadId := act_conversation_id activity;
     in_target := act_from_id activity;
     in_type := act_type activity |}.

(** The message logged when a delivery fails. *)
Definition delivery_error_message (msg : Msg) (err : JsError) : string :=
  "The following error occured when sending a payload of type "
  +:+ template (msg_type msg)
  +:+ " to MS Botframework: " +:+ err_message err.

(** A write to the durable store or an event sent to the bus. *)
Definition is_store_write_or_bus_event (e : Effect) : bool :=
  match e with
  | KvsSet _ _ _ | SendEvent _ => true
  | _ => false
  end.

(** The store is as it was, and the trace grew by no store write and no
    bus event. *)
Definition reads_only (w w' : World) : Prop :=
  kvs (bp w') = kvs (bp w)
  ∧ ∃ t : list Effect,
      trace (bp w') = trace (bp w) ++ t
      ∧ List.filter is_store_write_or_bus_event t = [].

(** The client is as it was but for its adapter, and the services are as
    they were but for the trace. *)
Definition same_but_adapter_and_trace (w w' : World) : Prop :=
  botId (this w') = botId (this w)
  ∧ config (this w') = config (this w)
  ∧ inMemoryConversationRefs (this w') = inMemoryConversationRefs (this w)
  ∧ kvs (bp w') = kvs (bp w)
  ∧ kvs_failure (bp w') = kvs_failure (bp w)
  ∧ publicPath (bp w') = publicPath (bp w)
  ∧ delivery_failure (bp w') = delivery_failure (bp w).

Definition is_router_post (e : Effect) : bool :=
  match e with
  | RouterPost _ => true
  | _ => false
  end.

Definition https_warning : string :=
  "Teams requires HTTPS to be setup to work properly. See EXTERNAL_URL botpress config.".

Definition text_activity : Activity :=
  mkActivity (Some "act-1") (Some "hello") "alice" "message" "19:thread"
             (Some "https://smba.example").

Definition later_activity : Activity :=
  mkActivity (Some "act-7") (Some "again") "alice" "message" "19:thread"
             (Some "https://other.example").

Definition store_down_world : World :=
  mkWorld fresh_client
          (mkServices ∅ (Some (Error "ECONNREFUSED")) (Returns "https://bot.example")
                      (λ _ _, None) []).

Definition known_thread_world : World :=
  mkWorld (mkTeamsClient "bot1" (mkConfig "app" "secret")
             (Some (mkAdapter "app" "secret")) {[ "19:thread" := Some handle_a ]})
          empty_services.

Definition uninitialized_world : World :=
  mkWorld (mkTeamsClient "bot1" (mkConfig "app" "secret") None
             {[ "19:thread" := Some handle_a ]})
          (mkServices ∅ None (Returns "http://bot.example") (λ _ _, None) []).

Definition timeout_world : World :=
  mkWorld (mkTeamsClient "bot1" (mkConfig "app" "secret")
             (Some (mkAdapter "app" "secret")) {[ "19:thread" := Some handle_a ]})
          timeout_services.

Definition broken_carousel : Payload := mkPayload (Some "carousel") None None None.

Definition typing_with_replies : Payload :=
  mkPayload (Some "typing") (Some "Continue?")
            (Some [mkReply (Some "Yes") (Some "yes")]) (Some []).

Definition empty_replies_payload : Payload :=
  mkPayload (Some "text") (Some "Continue?") (Some []) None.

Definition two_bot_bus : Bus :=
  mkBus {[ "bot1" := fresh_client;
           "bot2" := mkTeamsClient "bot2" (mkConfig "app2" "secret2") None ∅ ]}
        empty_services.

(** ** The package.json batch update

    The first module of [src/batch-update.ts]: the generator [amendFiles]
    and the [for ... of] loop that consumes it. The colours of [chalk] are
    left out of the printed lines. *)

Module BatchUpdate.

(** [content.author] when it is truthy: a string, or another value (the
    object form of the field, say), which has no method [toLowerCase]. *)
Inductive AuthorField :=
| AuthorString (s : string)
| AuthorOther.

(** The content of a package.json as the script reads it; [None] stands
    for a missing or [null] field. [resolutions] is used as a dictionary of
    version ranges. *)
Record PackageJson := mkPackageJson {
  author : option AuthorField;
  resolutions : option (gmap string string);
  other_fields : list (string * string)
}.

(** What the script does to its host, in order. [ExecYarn file] is
    [yarn install --force] run in [path.dirname(file)], and [OpenErrOut]
    the opening of [err.out] for writing that precedes it. *)
Inductive Output :=
| ConsoleLog (line : string)
| ConsoleError (line : string)
| WriteJson (file : string) (content : PackageJson)
| OpenErrOut
| ExecYarn (file : string).

(** The files on disk as parsed JSON (a falsy document is [None]), the
    directories where [yarn install] fails, and what was done so far. *)
Record Host := mkHost {
  disk : gmap string (option PackageJson);
  yarn_fails : string → bool;
  output : list Output
}.

(** [!process.argv.includes('--apply')] *)
Definition IS_DRY_RUN (argv : list string) : bool :=
  negb (includes argv "--apply").

Definition lower_ascii (c : Ascii.ascii) : Ascii.ascii :=
  let n := Ascii.nat_of_ascii c in
  if Nat.leb 65 n && Nat.leb n 90 then Ascii.ascii_of_nat (n + 32) else c.

(** [s.toLowerCase()], on the letters A to Z. *)
Fixpoint toLowerCase (s : string) : string :=
  match s with
  | EmptyString => EmptyString
  | String c s' => String (lower_ascii c) (toLowerCase s')
  end.

(** [hay.includes(needle)] *)
Fixpoint str_includes (needle hay : string) : bool :=
  String.prefix needle hay
  || match hay with
     | EmptyString => false
     | String _ hay' => str_includes needle hay'
     end.

(** [content.author && content.author.toLowerCase().includes('botpress')] *)
Definition botpress_author (content : PackageJson) : Outcome bool :=
  match author content with
  | None => Returns false
  | Some (AuthorString a) =>
      if String.eqb a "" then Returns false
      else Returns (str_includes "botpress" (toLowerCase a))
  | Some AuthorOther =>
      Throws (TypeError "content.author.toLowerCase is not a function")
  end.

Definition put (o : Output) (h : Host) : Host :=
  mkHost (disk h) (yarn_fails h) (output h ++ [o]).

(** [fse.writeJsonSync(file, content, { spaces: 2 })], taken to succeed. *)
Definition writeJsonSync (file : string) (content : PackageJson) (h : Host) : Host :=
  mkHost (<[file := Some content]> (disk h)) (yarn_fails h)
         (output h ++ [WriteJson file content]).

(** The [try]/[catch] around [cp.execSync('yarn install --force', ...)].
    What yarn and the opening of [err.out] do to the files of the host is
    not followed: [disk] stands for the package.json documents the script
    was started on. *)
Definition yarn_install (file : string) (h : Host) : Host :=
  let h := put (ExecYarn file) (put OpenErrOut h) in
  if yarn_fails h file then
    put (ConsoleError "==> ERROR running yarn install (see err.out)") h
  else
    put (ConsoleLog "    success") h.

(** One turn of the loop of [amendFiles]. [body] is what the consumer of
    the generator does with the triple it is handed at [yield]: it returns
    the content as it left it and whether it called [save]. *)
Definition amend_file (dry yarnInstall : bool)
    (body : PackageJson → string → PackageJson * bool)
    (file : string) (count : nat) (h : Host) : Outcome nat * Host :=
  match disk h !! file with
  | None =>
      (Throws (Error (file +:+ ": ENOENT: no such file or directory, open '"
                      +:+ file +:+ "'")), h)
  | Some None => (Returns count, h)
  | Some (Some content) =>
      match botpress_author content with
      | Throws e => (Throws e, h)
      | Returns false => (Returns count, h)
      | Returns true =>
          let (content, save) := body content file in
          if negb save then
            (Returns count, put (ConsoleLog ("Skipping " +:+ file +:+ " (no changes)")) h)
          else
            let count := S count in
            let h :=
              if dry then
                put (ConsoleLog ("==> File " +:+ file +:+ " has changes (DRY RUN)")) h
              else
                writeJsonSync file content
                  (put (ConsoleLog ("==> Applying changes to " +:+ file)) h) in
            let h :=
              if negb dry && yarnInstall then
                yarn_install file (put (ConsoleLog "==> yarn install --force") h)
              else h in
            (Returns count, h)
      end
  end.

(** [for (const file of files) { ... }] *)
Fixpoint amend_all (dry yarnInstall : bool)
    (body : PackageJson → string → PackageJson * bool)
    (files : list string) (count : nat) (h : Host) : Outcome nat * Host :=
  match files with
  | [] => (Returns count, h)
  | file :: files =>
      match amend_file dry yarnInstall body file count h with
      | (Returns count, h) => amend_all dry yarnInstall body files count h
      | (Throws e, h) => (Throws e, h)
      end
  end.

(** The lines printed after the loop. *)
Definition report (dry : bool) (files : list string) (count : nat) (h : Host) : Host :=
  let h := put (ConsoleLog ("Done processing " +:+ pretty (length files) +:+ " files")) h in
  if Nat.ltb 0 count then
    let h := put (ConsoleLog ("Changed " +:+ pretty count +:+ " files successfully")) h in
    if dry then
      put (ConsoleLog "Run this again with --apply to execute the changes")
        (put (ConsoleLog "THIS WAS A DRY RUN, SO NO FILE WAS ACTUALLY CHANGED") h)
    else h
  else
    put (ConsoleLog "There are no changes") h.

(** [amendFiles(yarnInstall)], run to its end by a consumer that does
    [body] at every [yield]. *)
Definition amendFiles (dry : bool) (files : list string) (yarnInstall : bool)
    (body : PackageJson → string → PackageJson * bool) (h : Host)
    : Outcome unit * Host :=
  match amend_all dry yarnInstall body files 0 h with
  | (Returns count, h) => (Returns (), report dry files count h)
  | (Throws e, h) => (Throws e, h)
  end.

(** The body of the [for ... of] loop: the fstream resolution is added
    unless the package already has one. *)
Definition add_fstream_resolution (content : PackageJson) : PackageJson * bool :=
  if match resolutions content with
     | None => true
     | Some r => negb (truthy_string (r !! "fstream"))
     end
  then
    (mkPackageJson (author content)
       (Some (<["fstream" := ">=1.0.12"]> (default ∅ (resolutions content))))
       (other_fields content),
     true)
  else (content, false).

(** What the loop does with the triple [[content, file, save]]. *)
Definition fstream_body (content : PackageJson) (file : string) : PackageJson * bool :=
  add_fstream_resolution content.

(** The script: [for (const [content, file, save] of amendFiles(true))]. *)
Definition main (argv files : list string) (h : Host) : Outcome unit * Host :=
  amendFiles (IS_DRY_RUN argv) files true fstream_body h.

(** A write to disk or a run of yarn, as opposed to a printed line. *)
Definition is_change (o : Output) : bool :=
  match o with
  | ConsoleLog _ | ConsoleError _ => false
  | _ => true
  end.

(** The package is one the script amends. *)
Definition needs_fstream (content : PackageJson) : Prop :=
  botpress_author content = Returns true
  ∧ (add_fstream_resolution content).2 = true.

(** The file is as it was on disk [d0], or it is a package that needed
    the fstream resolution on [d0] and now has it. *)
Definition amended_from (d0 d : gmap string (option PackageJson)) : Prop :=
  ∀ file : string,
    d !! file = d0 !! file
    ∨ ∃ content : PackageJson,
        d0 !! file = Some (Some content)
        ∧ needs_fstream content
        ∧ d !! file = Some (Some (add_fstream_resolution content).1).


(** The file is there and the script passes it without a change. *)
Definition settled (d : gmap string (option PackageJson)) (file : string) : Prop :=
  ∃ doc : option PackageJson,
    d !! file = Some doc
    ∧ ∀ content : PackageJson,
        doc = Some content →
        botpress_author content = Returns false
        ∨ (botpress_author content = Returns true
           ∧ (add_fstream_resolution content).2 = false).

(** The file is there and its author, if any, is a string. *)
Definition readable (d : gmap string (option PackageJson)) (file : string) : Prop :=
  ∃ doc : option PackageJson,
    d !! file = Some doc
    ∧ ∀ content : PackageJson,
        doc = Some content → author content ≠ Some AuthorOther.

Definition botpress_package : PackageJson :=
  mkPackageJson (Some (AuthorString "Botpress, Inc."))
                (Some {[ "lodash" := "4.17.15" ]}) [("name", "channel-teams")].

Definition pinned_package : PackageJson :=
  mkPackageJson (Some (AuthorString "botpress")) (Some {[ "fstream" := "1.0.11" ]})
                [("name", "pinned")].

Definition foreign_package : PackageJson :=
  mkPackageJson (Some (AuthorString "Someone Else")) None [("name", "vendor")].

Definition object_author_package : PackageJson :=
  mkPackageJson (Some AuthorOther) None [("name", "odd")].

Definition sample_files : list string :=
  ["modules/a/package.json"; "modules/b/package.json"; "vendor/package.json"].

Definition sample_host : Host :=
  mkHost {[ "modules/a/package.json" := Some botpress_package;
            "modules/b/package.json" := Some pinned_package;
            "vendor/package.json" := Some foreign_package ]}
         (λ file, String.eqb file "modules/a/package.json") [].

Definition odd_host : Host :=
  mkHost {[ "modules/a/package.json" := Some botpress_package;
            "modules/b/package.json" := Some object_author_package;
            "vendor/package.json" := Some foreign_package ]}
         (λ _, false) [].

End BatchUpdate.

(** ** Basic facts *)

Lemma includes_spec (xs : list string) (x : string) :
  includes xs x = true ↔ x ∈ xs.
Proof.
  unfold includes. rewrite existsb_exists. split.
  - intros (y & Hy & Heq). apply String.eqb_eq in Heq. subst y.
    by apply list_elem_of_In.
  - intros Hin. exists x. split; [by apply list_elem_of_In | apply String.eqb_refl].
Qed.

Lemma includes_false (xs : list string) (x : string) :
  includes xs x = false ↔ x ∉ xs.
Proof.
  rewrite <- includes_spec. destruct (includes xs x); split; congruence.
Qed.

Lemma truthy_string_false (v : option string) :
  truthy_string v = false ↔ v = None ∨ v = Some "".
Proof.
  destruct v as [s|]; simpl.
  - rewrite negb_false_iff, String.eqb_eq. split.
    + intros ->. by right.
    + intros [?|?]; congruence.
  - split; [by left | done].
Qed.

Lemma inherited_spec (key : string) :
  inherited key = true ↔ key ∈ Object_prototype.
Proof. apply includes_spec. Qed.

Lemma plain_object_get_insert_eq (own : gmap string (option ConversationReference))
    (key : string) (value : option ConversationReference) :
  plain_object_get (<[key := value]> own) key = Handle <$> value.
Proof. unfold plain_object_get. by rewrite lookup_insert_eq. Qed.

Lemma plain_object_get_insert_ne (own : gmap string (option ConversationReference))
    (key other : string) (value : option ConversationReference) :
  key ≠ other →
  plain_object_get (<[key := value]> own) other = plain_object_get own other.
Proof. intros Hne. unfold plain_object_get. by rewrite lookup_insert_ne. Qed.

Lemma held_not_inherited (w : World) (threadId : string) :
  threadId ∉ Object_prototype →
  held w threadId = Handle <$> recorded w threadId.
Proof.
  intros Hown. unfold held, recorded, plain_object_get.
  destruct (inMemoryConversationRefs (this w) !! threadId) as [value|]; [done |].
  apply includes_false in Hown. unfold inherited. by rewrite Hown.
Qed.

Lemma held_inherited (w : World) (threadId : string) :
  threadId ∈ Object_prototype →
  inMemoryConversationRefs (this w) !! threadId = None →
  held w threadId = Some (Inherited threadId).
Proof.
  intros Hin Hown. unfold held, plain_object_get. rewrite Hown.
  apply inherited_spec in Hin. by rewrite Hin.
Qed.

Lemma _getConversationRef_hit (threadId : string) (h : JsRef) (w : World) :
  held w threadId = Some h →
  _getConversationRef threadId w = (Returns (Some h), w).
Proof.
  unfold held, _getConversationRef, bind, read_ref. intros ->. reflexivity.
Qed.

Lemma _setConversationRef_hit (threadId : string) (h : JsRef)
    (h' : ConversationReference) (w : World) :
  held w threadId = Some h →
  _setConversationRef threadId h' w = (Returns (), w).
Proof.
  unfold held, _setConversationRef, bind, read_ref. intros ->. reflexivity.
Qed.

(** ** Unsupported event types *)

Lemma messageType_unsupported (event : Event) :
  messageType event ∉ outgoingTypes
  ↔ e_type event ∉ ["default"; "message"; "typing"; "carousel"; "text"].
Proof.
  unfold messageType, outgoingTypes.
  destruct (String.eqb_spec (e_type event) "default") as [->|Hne].
  - split; intros Hnot; exfalso; apply Hnot.
    + apply includes_spec. reflexivity.
    + apply list_elem_of_here.
  - rewrite (not_elem_of_cons _ (e_type event) "default"). tauto.
Qed.

(** C1. An outgoing event whose message kind (the event type, with
    [default] read as [text]) is not one of [message], [typing],
    [carousel], [text] makes [sendOutgoingEvent] throw the
    unsupported-event-type error; the client, the store and the trace are
    left as they were, so no handle is resolved, nothing is delivered and
    the adapter's [continueConversation] is never called. *)
Theorem sendOutgoingEvent_unsupported (event : Event) (w : World) :
  messageType event ∉ ["message"; "typing"; "carousel"; "text"] →
  sendOutgoingEvent event w = (Throws (unsupported_error event), w)
  ∧ unsupported_error event = Error ("Unsupported event type: " +:+ e_type event)
  ∧ trace (bp (sendOutgoingEvent event w).2) = trace (bp w)
  ∧ List.filter is_adapter_call (trace (bp (sendOutgoingEvent event w).2))
    = List.filter is_adapter_call (trace (bp w)).
Proof.
  intros Hkind. apply includes_false in Hkind.
  assert (Hrun : sendOutgoingEvent event w = (Throws (unsupported_error event), w)).
  { unfold sendOutgoingEvent, outgoingTypes. by rewrite Hkind. }
  rewrite Hrun. auto.
Qed.

Lemma sendOutgoingEvent_unsupported_witness :
  (messageType file_event ∉ ["message"; "typing"; "carousel"; "text"])
  ∧ sendOutgoingEvent file_event fresh_world
    = (Throws (Error "Unsupported event type: file"), fresh_world).
Proof.
  assert (H : messageType file_event ∉ ["message"; "typing"; "carousel"; "text"])
    by (apply includes_false; reflexivity).
  split; [exact H |].
  exact (proj1 (sendOutgoingEvent_unsupported file_event fresh_world H)).
Defined.

(** ** Carousels *)

Lemma prepare_msg_carousel (event : Event) :
  p_type (e_payload event) = Some "carousel" →
  prepare_msg event = _prepareCarouselPayload event.
Proof.
  intros Hty. unfold prepare_msg. rewrite Hty.
  rewrite bool_decide_eq_false_2 by discriminate.
  by rewrite bool_decide_eq_true_2.
Qed.

Lemma button_action_open_url (button : Button) :
  b_type button = "open_url" →
  button_action button
  = Some {| a_type := "openUrl"; a_title := b_title button;
            a_value := b_url button; a_text := None; a_displayText := None |}.
Proof. intros Hty. unfold button_action. by rewrite Hty. Qed.

(** C2. A carousel message is translated into one attachment per card, in
    the order of the cards; [sendOutgoingEvent] takes that translation for
    a payload of type [carousel]. For two cards that each carry one
    [open_url] button, the two attachments each have exactly one action, of
    kind [openUrl], whose value is the button's URL and whose title is the
    button's title. *)
Theorem carousel_one_attachment_per_card (event : Event) (cards : list Card) :
  p_elements (e_payload event) = Some cards →
  ∃ atts : list Attachment,
    _prepareCarouselPayload event
    = Returns (CarouselMsg atts AttachmentLayoutTypes_Carousel)
    ∧ (p_type (e_payload event) = Some "carousel" →
       prepare_msg event = Returns (CarouselMsg atts AttachmentLayoutTypes_Carousel))
    ∧ length atts = length cards
    ∧ (∀ i : nat, atts !! i = card_attachment <$> cards !! i)
    ∧ (∀ (c1 c2 : Card) (b1 b2 : Button),
         cards = [c1; c2] →
         c_buttons c1 = [b1] → b_type b1 = "open_url" →
         c_buttons c2 = [b2] → b_type b2 = "open_url" →
         length atts = 2
         ∧ CardFactory.buttons <$> atts
           = [ [ Some {| a_type := "openUrl"; a_title := b_title b1;
                         a_value := b_url b1;
                         a_text := None; a_displayText := None |} ];
               [ Some {| a_type := "openUrl"; a_title := b_title b2;
                         a_value := b_url b2;
                         a_text := None; a_displayText := None |} ] ]).
Proof.
  intros Hel. exists (map card_attachment cards).
  assert (Hrun : _prepareCarouselPayload event
                 = Returns (CarouselMsg (map card_attachment cards)
                                        AttachmentLayoutTypes_Carousel)).
  { unfold _prepareCarouselPayload. by rewrite Hel. }
  split; [done |].
  split; [intros Hty; by rewrite prepare_msg_carousel |].
  split; [apply length_map | split; [intros i; apply list_lookup_fmap |]].
  intros c1 c2 b1 b2 -> Hb1 Hk1 Hb2 Hk2. split; [done |].
  simpl. unfold CardFactory.actions. rewrite Hb1, Hb2. simpl.
  by rewrite (button_action_open_url b1 Hk1), (button_action_open_url b2 Hk2).
Qed.

Lemma carousel_one_attachment_per_card_witness :
  ∃ atts : list Attachment,
    prepare_msg (event_of two_card_carousel)
    = Returns (CarouselMsg atts AttachmentLayoutTypes_Carousel)
    ∧ length atts = 2
    ∧ CardFactory.buttons <$> atts
      = [ [ Some (mkCardAction "openUrl" (Some "Docs") (Some "https://docs.example") None None) ];
          [ Some (mkCardAction "openUrl" (Some "Blog") (Some "https://blog.example") None None) ] ].
Proof.
  destruct (carousel_one_attachment_per_card (event_of two_card_carousel) _ eq_refl)
    as (atts & _ & Hmsg & _ & _ & Htwo).
  exists atts. split; [exact (Hmsg eq_refl) |].
  exact (Htwo _ _ _ _ eq_refl eq_refl eq_refl eq_refl eq_refl).
Defined.

(** ** Quick replies *)

Lemma prepare_msg_quick_replies (event : Event) :
  p_type (e_payload event) ≠ Some "typing" →
  p_type (e_payload event) ≠ Some "carousel" →
  has_quick_replies (e_payload event) = true →
  prepare_msg event = _prepareChoicePayload event.
Proof.
  intros Hty Hca Hqr. unfold prepare_msg.
  rewrite !bool_decide_eq_false_2 by done. by rewrite Hqr.
Qed.

(** C3. A message with quick replies is translated into the message text
    plus exactly one card, with an empty title and no images, whose action
    list has one entry per reply, in the order of the replies: the entry's
    title and displayed text are the reply's title, its posted value and
    posted text are the reply's payload. [sendOutgoingEvent] takes that
    translation when the replies are not empty and the payload is neither
    a typing indicator nor a carousel. *)
Theorem quick_replies_single_card (event : Event) (replies : list Reply) :
  p_quick_replies (e_payload event) = Some replies →
  ∃ card : Attachment,
    _prepareChoicePayload event
    = Returns (ChoiceMsg (p_text (e_payload event)) [card])
    ∧ (p_type (e_payload event) ≠ Some "typing" →
       p_type (e_payload event) ≠ Some "carousel" →
       replies ≠ [] →
       prepare_msg event = Returns (ChoiceMsg (p_text (e_payload event)) [card]))
    ∧ CardFactory.title card = Some ""
    ∧ CardFactory.images card = []
    ∧ length (CardFactory.buttons card) = length replies
    ∧ (∀ (i : nat) (reply : Reply),
         replies !! i = Some reply →
         ∃ action : CardAction,
           CardFactory.buttons card !! i = Some (Some action)
           ∧ a_type action = "messageBack"
           ∧ a_title action = r_title reply
           ∧ a_value action = r_payload reply
           ∧ a_text action = r_payload reply
           ∧ a_displayText action = r_title reply).
Proof.
  intros Hqr.
  exists (CardFactory.heroCard (Some "") (CardFactory.mk_images [])
            (CardFactory.actions (map (Some ∘ reply_action) replies))).
  assert (Hrun : _prepareChoicePayload event
                 = Returns (ChoiceMsg (p_text (e_payload event))
                     [CardFactory.heroCard (Some "") (CardFactory.mk_images [])
                        (CardFactory.actions (map (Some ∘ reply_action) replies))])).
  { unfold _prepareChoicePayload. by rewrite Hqr. }
  split; [done |].
  split.
  { intros Hty Hca Hne. rewrite prepare_msg_quick_replies; try done.
    unfold has_quick_replies. rewrite Hqr. by destruct replies. }
  simpl. unfold CardFactory.actions.
  split; [done | split; [done | split; [apply length_map |]]].
  intros i reply Hi. exists (reply_action reply).
  split; [| done].
  change (map (Some ∘ reply_action) replies) with ((Some ∘ reply_action) <$> replies).
  by rewrite list_lookup_fmap, Hi.
Qed.

Lemma quick_replies_single_card_witness :
  ∃ card : Attachment,
    prepare_msg (event_of yes_no_payload) = Returns (ChoiceMsg (Some "Continue?") [card])
    ∧ CardFactory.title card = Some ""
    ∧ CardFactory.images card = []
    ∧ length (CardFactory.buttons card) = 2
    ∧ (∃ yes no : CardAction,
         CardFactory.buttons card = [Some yes; Some no]
         ∧ a_title yes = Some "Yes" ∧ a_value yes = Some "yes"
         ∧ a_title no = Some "No" ∧ a_value no = Some "no").
Proof.
  destruct (quick_replies_single_card (event_of yes_no_payload)
              [mkReply (Some "Yes") (Some "yes"); mkReply (Some "No") (Some "no")]
              eq_refl)
    as (card & _ & Hmsg & Htitle & Himages & Hlen & Hact).
  exists card.
  split; [apply Hmsg; discriminate |].
  repeat (split; [assumption |]).
  destruct (Hact 0 _ eq_refl) as (yes & Hyes & _ & Hy1 & Hy2 & _).
  destruct (Hact 1 _ eq_refl) as (no & Hno & _ & Hn1 & Hn2 & _).
  exists yes, no. split; [| by repeat split].
  destruct (CardFactory.buttons card) as [|x [|y [|z l]]]; try discriminate.
  simpl in Hyes, Hno. congruence.
Defined.

(** ** Buttons of an unknown kind *)

Lemma button_action_other (button : Button) :
  b_type button ∉ ["open_url"; "say_something"; "postback"] →
  button_action button = None.
Proof.
  intros Hkind. unfold button_action.
  destruct (String.eqb_spec (b_type button) "open_url") as [E|_];
    [rewrite E in Hkind; set_solver |].
  destruct (String.eqb_spec (b_type button) "say_something") as [E|_];
    [rewrite E in Hkind; set_solver |].
  destruct (String.eqb_spec (b_type button) "postback") as [E|_];
    [rewrite E in Hkind; set_solver |].
  reflexivity.
Qed.

(** C9. A button whose type is none of [open_url], [say_something],
    [postback] is mapped to [undefined] without any exception, and the
    carousel around it is still translated: its card's action list has as
    many entries as the card has buttons, with a hole at the position of
    that button. *)
Theorem unknown_button_leaves_hole (button : Button) :
  b_type button ∉ ["open_url"; "say_something"; "postback"] →
  button_action button = None
  ∧ ∀ (event : Event) (cards : list Card) (card : Card) (i j : nat),
      p_elements (e_payload event) = Some cards →
      cards !! i = Some card →
      c_buttons card !! j = Some button →
      ∃ (atts : list Attachment) (att : Attachment),
        _prepareCarouselPayload event
        = Returns (CarouselMsg atts AttachmentLayoutTypes_Carousel)
        ∧ (p_type (e_payload event) = Some "carousel" →
           prepare_msg event
           = Returns (CarouselMsg atts AttachmentLayoutTypes_Carousel))
        ∧ length atts = length cards
        ∧ atts !! i = Some att
        ∧ att = CardFactory.heroCard (c_title card)
                  (CardFactory.mk_images [c_picture card])
                  (CardFactory.actions (map button_action (c_buttons card)))
        ∧ map button_action (c_buttons card) !! j = Some None
        ∧ length (CardFactory.buttons att) = length (c_buttons card)
        ∧ CardFactory.buttons att !! j = Some None
        ∧ (∀ k : nat, CardFactory.buttons att !! k
                      = button_action <$> c_buttons card !! k).
Proof.
  intros Hkind. pose proof (button_action_other button Hkind) as Hnone.
  split; [exact Hnone |].
  intros event cards card i j Hel Hi Hj.
  exists (map card_attachment cards), (card_attachment card).
  assert (Hrun : _prepareCarouselPayload event
                 = Returns (CarouselMsg (map card_attachment cards)
                                        AttachmentLayoutTypes_Carousel)).
  { unfold _prepareCarouselPayload. by rewrite Hel. }
  split; [done |].
  split; [intros Hty; by rewrite prepare_msg_carousel |].
  split; [apply length_map |].
  split.
  { change (map card_attachment cards) with (card_attachment <$> cards).
    by rewrite list_lookup_fmap, Hi. }
  split; [reflexivity |].
  simpl. unfold CardFactory.actions.
  change (map button_action (c_buttons card)) with (button_action <$> c_buttons card).
  assert (Hhole : (button_action <$> c_buttons card) !! j = Some None)
    by (by rewrite list_lookup_fmap, Hj; simpl; rewrite Hnone).
  split; [exact Hhole |].
  split; [apply length_fmap |].
  split; [exact Hhole |].
  intros k. apply list_lookup_fmap.
Qed.

Lemma unknown_button_leaves_hole_witness :
  ∃ (atts : list Attachment) (att : Attachment),
    prepare_msg (event_of odd_button_carousel)
    = Returns (CarouselMsg atts AttachmentLayoutTypes_Carousel)
    ∧ atts !! 0 = Some att
    ∧ length (CardFactory.buttons att) = 3
    ∧ CardFactory.buttons att !! 1 = Some None.
Proof.
  assert (Hkind : "call" ∉ ["open_url"; "say_something"; "postback"])
    by (apply includes_false; reflexivity).
  destruct (proj2 (unknown_button_leaves_hole
                     (mkButton "call" (Some "Call us") None None None) Hkind)
              (event_of odd_button_carousel) _ _ 0 1 eq_refl eq_refl eq_refl)
    as (atts & att & _ & Hmsg & _ & Hatt & _ & _ & Hlen & Hhole & _).
  exists atts, att. split; [exact (Hmsg eq_refl) | by repeat split].
Defined.

(** ** Activities without text *)

(** C6. An inbound activity whose text is absent or empty is dropped: the
    callback returns at once, leaving the in-process mapping, the durable
    store and the trace untouched, so that no incoming event is sent to the
    bus and no conversation reference is written. *)
Theorem onTurn_without_text (activity : Activity) (w : World) :
  act_text activity = None ∨ act_text activity = Some "" →
  onTurn activity w = (Returns (), w)
  ∧ trace (bp (onTurn activity w).2) = trace (bp w)
  ∧ inMemoryConversationRefs (this (onTurn activity w).2)
    = inMemoryConversationRefs (this w)
  ∧ kvs (bp (onTurn activity w).2) = kvs (bp w).
Proof.
  intros Htext. apply truthy_string_false in Htext.
  assert (Hrun : onTurn activity w = (Returns (), w)).
  { unfold onTurn. by rewrite Htext. }
  by rewrite Hrun.
Qed.

Lemma onTurn_without_text_witness :
  onTurn reaction_activity stored_only_world = (Returns (), stored_only_world)
  ∧ onTurn empty_text_activity fresh_world = (Returns (), fresh_world).
Proof.
  split.
  - exact (proj1 (onTurn_without_text reaction_activity stored_only_world
                    (or_introl eq_refl))).
  - exact (proj1 (onTurn_without_text empty_text_activity fresh_world
                    (or_intror eq_refl))).
Defined.

(** ** Events of type [default] *)

Lemma sendOutgoingEvent_supported (event : Event) (w : World) :
  messageType event ∈ outgoingTypes →
  sendOutgoingEvent event w
  = (let* ref := _getConversationRef (e_threadId event) in
     send_with_ref event ref) w.
Proof.
  intros Hkind. apply includes_spec in Hkind.
  unfold sendOutgoingEvent. by rewrite Hkind.
Qed.

(** C10. An event of type [default] is not rejected: its message kind is
    [text], which is supported, so [sendOutgoingEvent] goes on to resolve
    the handle and deliver, exactly as it does for the same event with
    type [text]. *)
Theorem default_event_sent_as_text (event : Event) (w : World) :
  e_type event = "default" →
  messageType event = "text"
  ∧ messageType event ∈ outgoingTypes
  ∧ sendOutgoingEvent event w
    = (let* ref := _getConversationRef (e_threadId event) in
       send_with_ref event ref) w
  ∧ sendOutgoingEvent event w = sendOutgoingEvent (with_type "text" event) w.
Proof.
  intros Hty.
  assert (Hkind : messageType event = "text").
  { unfold messageType. by rewrite Hty. }
  assert (Hin : messageType event ∈ outgoingTypes).
  { rewrite Hkind. apply includes_spec. reflexivity. }
  split; [done | split; [done |]].
  split; [by apply sendOutgoingEvent_supported |].
  rewrite sendOutgoingEvent_supported by done.
  rewrite (sendOutgoingEvent_supported (with_type "text" event))
    by (apply includes_spec; reflexivity).
  reflexivity.
Qed.

Lemma default_event_sent_as_text_witness :
  messageType default_event = "text"
  ∧ sendOutgoingEvent default_event stored_only_world
    = sendOutgoingEvent text_event stored_only_world.
Proof.
  destruct (default_event_sent_as_text default_event stored_only_world eq_refl)
    as (Hkind & _ & _ & Hsame).
  split; [exact Hkind | exact Hsame].
Defined.

(** ** A thread without conversation reference *)

Lemma _getConversationRef_miss (threadId : string) (w : World) :
  held w threadId = None →
  kvs_failure (bp w) = None →
  _getConversationRef threadId w
  = (Returns (Handle <$> stored w threadId),
     mkWorld
       (mkTeamsClient (botId (this w)) (config (this w)) (adapter (this w))
          (<[threadId := stored w threadId]> (inMemoryConversationRefs (this w))))
       (mkServices (kvs (bp w)) (kvs_failure (bp w)) (publicPath (bp w))
          (delivery_failure (bp w))
          (trace (bp w) ++ [KvsGet (botId (this w)) threadId]))).
Proof.
  unfold held, stored, _getConversationRef, bind, read_ref, kvs_get, bind, emit,
    get_this, write_ref, ret.
  intros -> Hup. simpl. rewrite Hup. reflexivity.
Qed.

(** C7, as amended. For an event of a supported kind whose thread is not
    the name of a member inherited from [Object.prototype] and has a handle
    neither in the in-process mapping nor in the durable store,
    [sendOutgoingEvent] reads the store, logs the warning that names the
    thread, and returns normally; the adapter is not called and nothing is
    delivered. *)
Theorem sendOutgoingEvent_without_handle (event : Event) (w : World) :
  messageType event ∈ outgoingTypes →
  e_threadId event ∉ Object_prototype →
  recorded w (e_threadId event) = None →
  stored w (e_threadId event) = None →
  kvs_failure (bp w) = None →
  ∃ w' : World,
    sendOutgoingEvent event w = (Returns (), w')
    ∧ trace (bp w')
      = trace (bp w) ++ [ KvsGet (botId (this w)) (e_threadId event);
                          LoggerWarn (missing_ref_warning (e_threadId event)) ]
    ∧ List.filter is_adapter_call (trace (bp w'))
      = List.filter is_adapter_call (trace (bp w))
    ∧ kvs (bp w') = kvs (bp w)
    ∧ held w' (e_threadId event) = None.
Proof.
  intros Hkind Hown Hrecorded Hstored Hup.
  assert (Hheld : held w (e_threadId event) = None)
    by (by rewrite held_not_inherited, Hrecorded).
  rewrite sendOutgoingEvent_supported by done.
  unfold bind at 1. rewrite _getConversationRef_miss by done.
  rewrite Hstored. unfold send_with_ref, emit. simpl.
  eexists. split; [reflexivity |]. simpl.
  split; [by rewrite <- app_assoc |].
  split; [rewrite <- app_assoc, List.filter_app; simpl; apply app_nil_r |].
  split; [done |].
  unfold held. simpl. by rewrite plain_object_get_insert_eq.
Qed.

Lemma sendOutgoingEvent_without_handle_witness :
  ∃ w' : World,
    sendOutgoingEvent text_event fresh_world = (Returns (), w')
    ∧ trace (bp w')
      = [ KvsGet "bot1" "19:thread";
          LoggerWarn "No message could be sent to MS Botframework with threadId: 19:thread as there is no conversation reference" ].
Proof.
  assert (Hkind : messageType text_event ∈ outgoingTypes)
    by (apply includes_spec; reflexivity).
  assert (Hown : e_threadId text_event ∉ Object_prototype)
    by (apply includes_false; reflexivity).
  destruct (sendOutgoingEvent_without_handle text_event fresh_world
              Hkind Hown eq_refl eq_refl eq_refl)
    as (w' & Hrun & Htrace & _).
  exists w'. split; [exact Hrun | exact Htrace].
Defined.

(** C7 as stated fails for a thread named like a member of
    [Object.prototype]: no handle was recorded for [constructor], in the
    process or in the store, yet the mapping reads the inherited member,
    which is truthy; no warning is logged, the store is not read, and the
    adapter is asked to continue the conversation of that value and to
    send the message. On a platform that cannot deliver through such a
    value the call throws. *)
Lemma sendOutgoingEvent_without_handle_inherited_name :
  messageType constructor_event ∈ outgoingTypes
  ∧ recorded strict_world "constructor" = None
  ∧ stored strict_world "constructor" = None
  ∧ kvs_failure (bp strict_world) = None
  ∧ ∃ w' : World,
      sendOutgoingEvent constructor_event strict_world
      = (Throws (Error "Invalid conversation reference"), w')
      ∧ trace (bp w')
        = [ ContinueConversation (Inherited "constructor");
            SendActivity (RawPayload text_payload);
            LoggerError
              (delivery_error_message (RawPayload text_payload)
                 (Error "Invalid conversation reference"))
              (Error "Invalid conversation reference") ].
Proof.
  split; [apply includes_spec; reflexivity |].
  repeat (split; [reflexivity |]).
  exists (sendOutgoingEvent constructor_event strict_world).2.
  split; by vm_compute.
Qed.

(** ** Relations respected by the methods *)

Section Respects.

Variable R : World → World → Prop.
Hypothesis R_refl : ∀ w, R w w.
Hypothesis R_trans : ∀ w1 w2 w3, R w1 w2 → R w2 w3 → R w1 w3.

Lemma respects_ret {A} (a : A) : respects R (ret a).
Proof. intros w. apply R_refl. Qed.

Lemma respects_throw {A} (e : JsError) : respects R (@throw A e).
Proof. intros w. apply R_refl. Qed.

Lemma respects_lift {A} (o : Outcome A) : respects R (lift o).
Proof. intros w. apply R_refl. Qed.

Lemma respects_get_this : respects R get_this.
Proof. intros w. apply R_refl. Qed.

Lemma respects_bind {A B} (m : M A) (k : A → M B) :
  respects R m → (∀ a, respects R (k a)) → respects R (bind m k).
Proof.
  intros Hm Hk w. unfold bind. specialize (Hm w).
  destruct (m w) as [[a|e] w1]; simpl in *; [| done].
  eapply R_trans; [exact Hm | apply Hk].
Qed.

Lemma respects_try_catch {A} (m : M A) (h : JsError → M A) :
  respects R m → (∀ e, respects R (h e)) → respects R (try_catch m h).
Proof.
  intros Hm Hh w. unfold try_catch. specialize (Hm w).
  destruct (m w) as [[a|e] w1]; simpl in *; [done |].
  eapply R_trans; [exact Hm | apply Hh].
Qed.

Hypothesis R_emit : ∀ e, is_next e = false → respects R (emit e).
Hypothesis R_set_adapter : ∀ a, respects R (set_adapter a).
Hypothesis R_get : ∀ threadId, respects R (_getConversationRef threadId).
Hypothesis R_set : ∀ threadId convRef, respects R (_setConversationRef threadId convRef).

Lemma respects_sendActivity ref msg : respects R (sendActivity ref msg).
Proof.
  apply respects_bind; [by apply R_emit |].
  intros _ w. destruct (delivery_failure (bp w) ref msg); apply R_refl.
Qed.

Lemma respects_continueConversation ref callback :
  respects R callback → respects R (continueConversation ref callback).
Proof.
  intros Hcb. apply respects_bind; [apply respects_get_this |].
  intros self. destruct (adapter self); [| apply respects_throw].
  apply respects_bind; [by apply R_emit | done].
Qed.

Lemma respects_send_with_ref event ref : respects R (send_with_ref event ref).
Proof.
  destruct ref as [ref|]; simpl; [| by apply R_emit].
  apply respects_bind; [apply respects_lift |].
  intros msg. apply respects_continueConversation.
  apply respects_try_catch; [apply respects_sendActivity |].
  intros err. apply respects_bind; [by apply R_emit | intros; apply respects_throw].
Qed.

Lemma respects_sendOutgoingEvent event : respects R (sendOutgoingEvent event).
Proof.
  unfold sendOutgoingEvent.
  destruct (negb _); [apply respects_throw |].
  apply respects_bind; [apply R_get | apply respects_send_with_ref].
Qed.

Lemma respects_onTurn activity : respects R (onTurn activity).
Proof.
  unfold onTurn. destruct (negb _); [apply respects_ret |].
  apply respects_bind; [apply R_set |].
  intros _. apply respects_bind; [apply respects_get_this |].
  intros self. by apply R_emit.
Qed.

Lemma respects_initialize : respects R initialize.
Proof.
  unfold initialize. apply respects_bind; [apply respects_get_this |].
  intros self. apply respects_bind; [apply R_set_adapter |].
  intros _. apply respects_bind; [intros w; apply R_refl |].
  intros path. apply respects_bind; [| intros; by apply R_emit].
  destruct (indexOf_is_not_0 _ _); [by apply R_emit | apply respects_ret].
Qed.

End Respects.

(** ** Held handles are never replaced *)

Lemma keeps_held_refl (w : World) : keeps_held w w.
Proof. by intros threadId h. Qed.

Lemma keeps_held_trans (w1 w2 w3 : World) :
  keeps_held w1 w2 → keeps_held w2 w3 → keeps_held w1 w3.
Proof. intros H12 H23 threadId h Hh. by apply H23, H12. Qed.

Lemma keeps_held_same_refs (w w' : World) :
  inMemoryConversationRefs (this w') = inMemoryConversationRefs (this w) →
  keeps_held w w'.
Proof. intros Heq threadId h. unfold held. by rewrite Heq. Qed.

Lemma keeps_held_emit (e : Effect) : respects keeps_held (emit e).
Proof. intros w. by apply keeps_held_same_refs. Qed.

Lemma keeps_held_set_adapter (a : BotFrameworkAdapter) :
  respects keeps_held (set_adapter a).
Proof. intros w. by apply keeps_held_same_refs. Qed.

Lemma keeps_held_get (threadId : string) :
  respects keeps_held (_getConversationRef threadId).
Proof.
  intros w. unfold _getConversationRef, bind at 1, read_ref.
  destruct (plain_object_get (inMemoryConversationRefs (this w)) threadId)
    as [h|] eqn:Hheld; [apply keeps_held_refl |].
  unfold bind at 1, get_this, kvs_get, bind at 1, bind at 1, emit.
  destruct (kvs_failure _) as [e|]; simpl.
  - by apply keeps_held_same_refs.
  - intros other h Hother. unfold held in *. simpl.
    rewrite plain_object_get_insert_ne; [done |]. intros ->. congruence.
Qed.

Lemma keeps_held_set (threadId : string) (convRef : ConversationReference) :
  respects keeps_held (_setConversationRef threadId convRef).
Proof.
  intros w. unfold _setConversationRef, bind at 1, read_ref.
  destruct (plain_object_get (inMemoryConversationRefs (this w)) threadId)
    as [h|] eqn:Hheld; [apply keeps_held_refl |].
  unfold bind, write_ref, get_this, kvs_set, bind, emit. simpl.
  assert (Hkeep : ∀ w' : World,
             inMemoryConversationRefs (this w')
             = <[threadId := Some convRef]> (inMemoryConversationRefs (this w)) →
             keeps_held w w').
  { intros w' Heq other h Hother. unfold held in *. rewrite Heq.
    rewrite plain_object_get_insert_ne; [done |]. intros ->. congruence. }
  destruct (kvs_failure _); by apply Hkeep.
Qed.

Lemma keeps_held_send_with_ref (event : Event) (ref : option JsRef) :
  respects keeps_held (send_with_ref event ref).
Proof.
  apply (respects_send_with_ref keeps_held keeps_held_refl keeps_held_trans).
  intros e _. apply keeps_held_emit.
Qed.

Lemma send_with_ref_same_refs (event : Event) (ref : option JsRef) (w : World) :
  inMemoryConversationRefs (this (send_with_ref event ref w).2)
  = inMemoryConversationRefs (this w).
Proof.
  revert w.
  apply (respects_send_with_ref
           (λ w w', inMemoryConversationRefs (this w')
                    = inMemoryConversationRefs (this w))).
  - done.
  - intros w1 w2 w3 H12 H23. congruence.
  - by intros e _ w.
Qed.

Lemma keeps_held_perform (w : World) (c : Call) : keeps_held w (perform w c).
Proof.
  destruct c; simpl.
  - apply (respects_initialize keeps_held keeps_held_refl keeps_held_trans);
      auto using keeps_held_emit, keeps_held_set_adapter.
  - apply (respects_onTurn keeps_held keeps_held_refl keeps_held_trans);
      auto using keeps_held_emit, keeps_held_set.
  - apply keeps_held_get.
  - apply keeps_held_set.
  - apply (respects_sendOutgoingEvent keeps_held keeps_held_refl keeps_held_trans);
      auto using keeps_held_emit, keeps_held_get.
  - by apply keeps_held_same_refs.
Qed.

(** ** Overlapping calls *)

(** The lookup in one piece is its two halves with the answer the store
    gives at once. *)
Lemma _getConversationRef_split (threadId : string) (w : World) :
  _getConversationRef threadId w
  = (let* found := _getConversationRef_begin threadId in
     match found with
     | Some convRef => ret (Some convRef)
     | None =>
         let* self := get_this in
         let* convRef := kvs_answer (botId self) threadId in
         _getConversationRef_resume threadId convRef
     end) w.
Proof.
  unfold _getConversationRef, _getConversationRef_begin, _getConversationRef_resume,
    bind, read_ref, kvs_get, kvs_answer, bind, emit, get_this, write_ref, ret.
  destruct (plain_object_get _ _); [done |]. simpl.
  by destruct (kvs_failure (bp w)).
Qed.

Lemma _getConversationRef_begin_hit (threadId : string) (found : JsRef) (w : World) :
  held w threadId = Some found →
  _getConversationRef_begin threadId w = (Returns (Some found), w).
Proof.
  unfold held, _getConversationRef_begin, bind, read_ref. intros ->. reflexivity.
Qed.

Lemma _getConversationRef_begin_miss (threadId : string) (w : World) :
  held w threadId = None →
  _getConversationRef_begin threadId w
  = (Returns None, (emit (KvsGet (botId (this w)) threadId) w).2).
Proof.
  unfold held, _getConversationRef_begin, bind, read_ref. intros ->. reflexivity.
Qed.

Lemma not_elem_of_remove_first (x y : string) (l : list string) :
  x ∉ l → x ∉ remove_first y l.
Proof.
  induction l as [|z l IH]; simpl; [done |].
  rewrite not_elem_of_cons. intros [Hne Hl].
  destruct (String.eqb y z); [done |].
  rewrite not_elem_of_cons. split; [done | by apply IH].
Qed.

(** What the mapping holds for a thread none of whose lookups is suspended
    stays through every move, and no lookup of that thread gets
    suspended. *)
Lemma held_and_settled_move (p : Process) (m : Move) (threadId : string) (h : JsRef) :
  held (world p) threadId = Some h →
  threadId ∉ suspended p →
  held (world (move p m)) threadId = Some h
  ∧ threadId ∉ suspended (move p m).
Proof.
  intros Hheld Hquiet. destruct m as [c | t | t answer rest]; simpl.
  - split; [by apply keeps_held_perform | done].
  - destruct (held (world p) t) as [found|] eqn:Hfound.
    + rewrite (_getConversationRef_begin_hit t found _ Hfound). by split.
    + rewrite (_getConversationRef_begin_miss t _ Hfound). simpl.
      split; [exact Hheld |].
      rewrite not_elem_of_cons. split; [| done].
      intros ->. congruence.
  - case_bool_decide as Hin; [| done]. simpl.
    split; [| by apply not_elem_of_remove_first].
    assert (Hne : t ≠ threadId) by (intros ->; done).
    unfold resume_lookup, bind at 1, lift.
    destruct answer as [convRef|e]; [| exact Hheld].
    unfold bind at 1, _getConversationRef_resume, bind at 1, write_ref, ret.
    simpl.
    match goal with |- held (?m ?w1).2 _ = _ =>
      assert (Hwritten : held w1 threadId = Some h)
        by (unfold held in *; simpl; by rewrite plain_object_get_insert_ne)
    end.
    destruct rest as [event|]; [| exact Hwritten].
    by apply keeps_held_send_with_ref.
Qed.

Lemma held_and_settled_play (moves : list Move) (p : Process) (threadId : string)
    (h : JsRef) :
  held (world p) threadId = Some h →
  threadId ∉ suspended p →
  held (world (play p moves)) threadId = Some h
  ∧ threadId ∉ suspended (play p moves).
Proof.
  revert p. induction moves as [|m moves IH]; intros p Hheld Hquiet; simpl; [done |].
  destruct (held_and_settled_move p m threadId h Hheld Hquiet) as [Hheld' Hquiet'].
  by apply IH.
Qed.

(** ** Recording and resolving conversation references *)

Lemma _setConversationRef_miss (threadId : string) (h : ConversationReference)
    (w w1 : World) :
  held w threadId = None →
  _setConversationRef threadId h w = (Returns (), w1) →
  held w1 threadId = Some (Handle h) ∧ stored w1 threadId = Some h
  ∧ trace (bp w1) = trace (bp w) ++ [KvsSet (botId (this w)) threadId h].
Proof.
  unfold held, stored, _setConversationRef, bind, read_ref, write_ref, get_this,
    kvs_set, bind, emit.
  intros -> Hrun. simpl in Hrun.
  destruct (kvs_failure (bp w)); [discriminate |].
  injection Hrun as <-. simpl.
  by rewrite plain_object_get_insert_eq, lookup_insert_eq.
Qed.

Lemma _setConversationRef_held (threadId : string) (h : ConversationReference)
    (w : World) :
  held (_setConversationRef threadId h w).2 threadId
  = Some (default (Handle h) (held w threadId)).
Proof.
  unfold held, _setConversationRef, bind at 1, read_ref.
  destruct (plain_object_get (inMemoryConversationRefs (this w)) threadId)
    as [h0|] eqn:Hheld; simpl; [by rewrite Hheld |].
  unfold bind, write_ref, get_this, kvs_set, bind, emit. simpl.
  destruct (kvs_failure _); simpl; by rewrite plain_object_get_insert_eq.
Qed.

(** C4, as amended. For a thread [id] that is not the name of a member
    inherited from [Object.prototype]: once [record(id, h1)] has returned,
    [record(id, h2)] is a no-op: it changes neither the in-process mapping
    nor the durable store and calls no collaborator. [resolve(id)] then
    answers from the in-process mapping the handle that was recorded
    first; when the process had no handle for [id] before
    [record(id, h1)], that handle is [h1], whatever [h2] is, and [h1] is
    also what the durable store holds. *)
Theorem record_first_write_wins (id : string) (h1 h2 : ConversationReference)
    (w w1 : World) :
  id ∉ Object_prototype →
  _setConversationRef id h1 w = (Returns (), w1) →
  _setConversationRef id h2 w1 = (Returns (), w1)
  ∧ _getConversationRef id w1
    = (Returns (Some (Handle (default h1 (recorded w id)))), w1)
  ∧ (recorded w id = None →
     _getConversationRef id w1 = (Returns (Some (Handle h1)), w1)
     ∧ (_getConversationRef id (_setConversationRef id h2 w1).2).1
       = Returns (Some (Handle h1))
     ∧ held w1 id = Some (Handle h1)
     ∧ stored w1 id = Some h1).
Proof.
  intros Hown Hrun.
  assert (Hbefore : held w id = Handle <$> recorded w id)
    by (by apply held_not_inherited).
  assert (Hheld : held w1 id = Some (Handle (default h1 (recorded w id)))).
  { pose proof (_setConversationRef_held id h1 w) as H.
    rewrite Hrun, Hbefore in H. simpl in H. rewrite H.
    by destruct (recorded w id). }
  assert (Hnoop : _setConversationRef id h2 w1 = (Returns (), w1))
    by (by eapply _setConversationRef_hit).
  split; [exact Hnoop |].
  split; [by apply _getConversationRef_hit |].
  intros Hfresh. rewrite Hfresh in Hheld, Hbefore. simpl in Hheld, Hbefore.
  rewrite Hnoop. simpl.
  rewrite (_getConversationRef_hit id _ w1 Hheld).
  destruct (_setConversationRef_miss id h1 w w1 Hbefore Hrun) as (_ & Hstored & _).
  done.
Qed.

Lemma record_first_write_wins_witness :
  ∃ w1 : World,
    _setConversationRef "19:thread" handle_a fresh_world = (Returns (), w1)
    ∧ _setConversationRef "19:thread" handle_b w1 = (Returns (), w1)
    ∧ _getConversationRef "19:thread" w1 = (Returns (Some (Handle handle_a)), w1).
Proof.
  exists (_setConversationRef "19:thread" handle_a fresh_world).2.
  assert (Hown : "19:thread" ∉ Object_prototype)
    by (apply includes_false; reflexivity).
  assert (Hrun : _setConversationRef "19:thread" handle_a fresh_world
                 = (Returns (), (_setConversationRef "19:thread" handle_a fresh_world).2))
    by reflexivity.
  destruct (record_first_write_wins "19:thread" handle_a handle_b fresh_world _
              Hown Hrun)
    as (Hnoop & _ & Hfirst).
  split; [exact Hrun | split; [exact Hnoop |]].
  exact (proj1 (Hfirst eq_refl)).
Defined.

(** C4 as stated fails for a thread named like a member of
    [Object.prototype]: in a process that recorded nothing,
    [record('constructor', h1)] returns at its guard, because the mapping
    reads the inherited member, which is truthy; nothing is recorded, in
    the process or in the store, and [resolve('constructor')] returns that
    member, not [h1]. *)
Lemma record_first_write_wins_inherited_name :
  recorded fresh_world "constructor" = None
  ∧ _setConversationRef "constructor" handle_a fresh_world = (Returns (), fresh_world)
  ∧ _setConversationRef "constructor" handle_b fresh_world = (Returns (), fresh_world)
  ∧ _getConversationRef "constructor" fresh_world
    = (Returns (Some (Inherited "constructor")), fresh_world)
  ∧ Some (Inherited "constructor") ≠ Some (Handle handle_a)
  ∧ stored fresh_world "constructor" = None.
Proof. repeat split; (reflexivity || discriminate). Qed.




(** ** The calls of [next] made by the outgoing handler *)

Lemma appends_no_next_refl (w : World) : appends_no_next w w.
Proof. exists []. by rewrite app_nil_r. Qed.

Lemma appends_no_next_trans (w1 w2 w3 : World) :
  appends_no_next w1 w2 → appends_no_next w2 w3 → appends_no_next w1 w3.
Proof.
  intros (t1 & H1 & N1) (t2 & H2 & N2). exists (t1 ++ t2). split.
  - by rewrite H2, H1, app_assoc.
  - unfold next_calls in *. by rewrite List.filter_app, N1, N2.
Qed.

Lemma appends_no_next_same_trace (w w' : World) :
  trace (bp w') = trace (bp w) → appends_no_next w w'.
Proof. intros Heq. exists []. by rewrite app_nil_r. Qed.

Lemma appends_no_next_emit (e : Effect) :
  is_next e = false → respects appends_no_next (emit e).
Proof.
  intros He w. exists [e]. split; [done |].
  unfold next_calls. simpl. by rewrite He.
Qed.

Lemma appends_no_next_set_adapter (a : BotFrameworkAdapter) :
  respects appends_no_next (set_adapter a).
Proof. intros w. by apply appends_no_next_same_trace. Qed.

Lemma appends_no_next_get (threadId : string) :
  respects appends_no_next (_getConversationRef threadId).
Proof.
  intros w. unfold _getConversationRef, bind at 1, read_ref.
  destruct (plain_object_get _ _); [apply appends_no_next_refl |].
  unfold bind at 1, get_this, kvs_get, bind at 1, bind at 1, emit.
  exists [KvsGet (botId (this w)) threadId].
  destruct (kvs_failure _); simpl; done.
Qed.

Lemma appends_no_next_set (threadId : string) (convRef : ConversationReference) :
  respects appends_no_next (_setConversationRef threadId convRef).
Proof.
  intros w. unfold _setConversationRef, bind at 1, read_ref.
  destruct (plain_object_get _ _); [apply appends_no_next_refl |].
  unfold bind, write_ref, get_this, kvs_set, bind, emit. simpl.
  exists [KvsSet (botId (this w)) threadId convRef].
  destruct (kvs_failure _); simpl; done.
Qed.

Lemma appends_no_next_sendOutgoingEvent (event : Event) :
  respects appends_no_next (sendOutgoingEvent event).
Proof.
  apply (respects_sendOutgoingEvent appends_no_next
           appends_no_next_refl appends_no_next_trans);
    auto using appends_no_next_emit, appends_no_next_get.
Qed.

(** The calls of [next] the handler makes, by case: one [next()] for an
    event of another channel or of a bot that has no client and is not
    named like a member of [Object.prototype]; [next(undefined, false)]
    alone when [sendOutgoingEvent] returns; [next(err)] followed by
    [next(undefined, false)] when it throws [err], and likewise with a
    [TypeError] when [clients[event.botId]] is an inherited member.
    [sendOutgoingEvent] itself never calls [next]. *)
Lemma outgoingHandler_next_calls (event : Event) (b : Bus) :
  ∃ t : list Effect,
    trace (services (outgoingHandler event b)) = trace (services b) ++ t
    ∧ next_calls t
      = if negb (String.eqb (e_channel event) "teams") then [Next None None]
        else match clients b !! e_botId event with
             | None =>
                 if bool_decide (e_botId event ∈ Object_prototype) then
                   [Next (Some not_a_client) None; Next None (Some false)]
                 else [Next None None]
             | Some client =>
                 match (sendOutgoingEvent event (mkWorld client (services b))).1 with
                 | Returns _ => [Next None (Some false)]
                 | Throws err => [Next (Some err) None; Next None (Some false)]
                 end
             end.
Proof.
  unfold outgoingHandler.
  destruct (negb _); [by exists [Next None None] |].
  destruct (clients b !! e_botId event) as [client|].
  2: { case_bool_decide as Hin.
       - apply inherited_spec in Hin. rewrite Hin. simpl.
         exists [Next (Some not_a_client) None; Next None (Some false)].
         split; [by rewrite <- app_assoc | done].
       - apply includes_false in Hin. unfold inherited. rewrite Hin.
         by exists [Next None None]. }
  unfold call_on.
  destruct (appends_no_next_sendOutgoingEvent event (mkWorld client (services b)))
    as (t & Ht & Hn).
  destruct (sendOutgoingEvent event (mkWorld client (services b))) as [[[]|err] w'];
    simpl in *.
  - exists (t ++ [Next None (Some false)]). split; [by rewrite Ht, app_assoc |].
    unfold next_calls in *. by rewrite List.filter_app, Hn.
  - exists (t ++ [Next (Some err) None; Next None (Some false)]). split.
    + rewrite Ht. rewrite <- !app_assoc. reflexivity.
    + unfold next_calls in *. by rewrite List.filter_app, Hn.
Qed.

(** C8. The handler does not call [next] exactly once on every invocation:
    for a [teams] event of an unsupported type sent to a registered client,
    [sendOutgoingEvent] throws, the handler calls [next] with the caught
    error, and then calls [next] a second time with [(undefined, false)].
    The same happens when the delivery fails. *)
Theorem outgoingHandler_calls_next_twice_on_failure :
  next_calls (trace (services (outgoingHandler file_event sample_bus)))
  = [Next (Some file_event_error) None; Next None (Some false)]
  ∧ next_calls (trace (services (outgoingHandler text_event timeout_bus)))
    = [Next (Some (Error "NetworkTimeout")) None; Next None (Some false)]
  ∧ length (next_calls (trace (services (outgoingHandler file_event sample_bus)))) ≠ 1.
Proof. by vm_compute. Qed.

(** ** Activities with text *)

Lemma onTurn_with_text (activity : Activity) (w : World) :
  truthy_string (act_text activity) = true →
  onTurn activity w
  = (_setConversationRef (act_conversation_id activity)
       (getConversationReference activity);;
     _sendIncomingEvent activity (act_conversation_id activity)) w.
Proof. intros Htext. unfold onTurn. by rewrite Htext. Qed.

(** On the first activity with text of a thread for which the in-process
    mapping reads [undefined] (nothing was recorded for it, and it is not
    named like a member of [Object.prototype]), the handle of the activity
    is put in the in-process mapping and in the durable store, and then exactly one incoming event is sent to the bus:
    channel [teams], direction [incoming], the text as payload and as
    preview, the thread and the sender of the activity. *)
Theorem onTurn_first_sighting (activity : Activity) (w : World) :
  truthy_string (act_text activity) = true →
  held w (act_conversation_id activity) = None →
  kvs_failure (bp w) = None →
  ∃ w' : World,
    onTurn activity w = (Returns (), w')
    ∧ held w' (act_conversation_id activity)
      = Some (Handle (getConversationReference activity))
    ∧ stored w' (act_conversation_id activity) = Some (getConversationReference activity)
    ∧ trace (bp w')
      = trace (bp w)
        ++ [ KvsSet (botId (this w)) (act_conversation_id activity)
                    (getConversationReference activity);
             SendEvent (incoming_event (botId (this w)) activity) ].
Proof.
  intros Htext Hheld Hup. rewrite onTurn_with_text by done.
  unfold held, stored in *.
  unfold bind, _setConversationRef, bind, read_ref, write_ref, get_this, kvs_set,
    bind, emit, _sendIncomingEvent, bind, get_this, emit.
  rewrite Hheld. simpl. rewrite Hup. simpl.
  eexists. split; [reflexivity |]. simpl.
  rewrite plain_object_get_insert_eq, lookup_insert_eq, <- app_assoc. done.
Qed.

Lemma onTurn_first_sighting_witness :
  ∃ w' : World,
    onTurn text_activity fresh_world = (Returns (), w')
    ∧ held w' "19:thread" = Some (Handle (getConversationReference text_activity))
    ∧ trace (bp w')
      = [ KvsSet "bot1" "19:thread" (getConversationReference text_activity);
          SendEvent (mkIncomingEvent "bot1" "teams" "incoming" (Some "hello")
                       (Some "hello") "19:thread" "alice" "message") ].
Proof.
  destruct (onTurn_first_sighting text_activity fresh_world eq_refl eq_refl eq_refl)
    as (w' & Hrun & Hheld & _ & Htrace).
  exists w'. split; [exact Hrun | split; [exact Hheld | exact Htrace]].
Defined.

(** An activity with text of a thread the process already holds a handle
    for leaves that handle in place, even when the activity carries another
    conversation reference; the store is not called and the only effect is
    the incoming event. *)
Theorem onTurn_known_thread (activity : Activity) (h : JsRef)
    (w : World) :
  truthy_string (act_text activity) = true →
  held w (act_conversation_id activity) = Some h →
  ∃ w' : World,
    onTurn activity w = (Returns (), w')
    ∧ this w' = this w
    ∧ held w' (act_conversation_id activity) = Some h
    ∧ kvs (bp w') = kvs (bp w)
    ∧ trace (bp w')
      = trace (bp w) ++ [SendEvent (incoming_event (botId (this w)) activity)].
Proof.
  intros Htext Hheld. rewrite onTurn_with_text by done.
  unfold bind at 1.
  rewrite (_setConversationRef_hit _ h _ w Hheld).
  unfold _sendIncomingEvent, bind, get_this, emit.
  eexists. split; [reflexivity |]. simpl. done.
Qed.

Lemma onTurn_known_thread_witness :
  ∃ w' : World,
    onTurn later_activity known_thread_world = (Returns (), w')
    ∧ held w' "19:thread" = Some (Handle handle_a)
    ∧ getConversationReference later_activity ≠ handle_a
    ∧ trace (bp w') = [SendEvent (incoming_event "bot1" later_activity)].
Proof.
  destruct (onTurn_known_thread later_activity handle_a known_thread_world
              eq_refl eq_refl)
    as (w' & Hrun & _ & Hheld & _ & Htrace).
  exists w'. split; [exact Hrun | split; [exact Hheld | split; [discriminate | exact Htrace]]].
Defined.

(** When the durable store fails on the first activity of a thread, the
    callback throws the store's error and sends no incoming event; the
    handle is in the in-process mapping all the same, so, unless a lookup
    of that thread was suspended at the time, no later
    [_setConversationRef] of this process for that thread writes the
    store, whatever is called in between and however the calls overlap. *)
Theorem onTurn_store_failure (activity : Activity) (err : JsError) (p : Process) :
  truthy_string (act_text activity) = true →
  held (world p) (act_conversation_id activity) = None →
  act_conversation_id activity ∉ suspended p →
  kvs_failure (bp (world p)) = Some err →
  ∃ w' : World,
    onTurn activity (world p) = (Throws err, w')
    ∧ held w' (act_conversation_id activity)
      = Some (Handle (getConversationReference activity))
    ∧ kvs (bp w') = kvs (bp (world p))
    ∧ trace (bp w')
      = trace (bp (world p))
        ++ [ KvsSet (botId (this (world p))) (act_conversation_id activity)
                    (getConversationReference activity) ]
    ∧ ∀ (moves : list Move) (h : ConversationReference),
        _setConversationRef (act_conversation_id activity) h
          (world (play (mkProcess w' (suspended p)) moves))
        = (Returns (), world (play (mkProcess w' (suspended p)) moves)).
Proof.
  intros Htext Hheld Hquiet Hdown. rewrite onTurn_with_text by done.
  unfold held in Hheld.
  unfold bind, _setConversationRef, bind, read_ref, write_ref, get_this, kvs_set,
    bind, emit.
  rewrite Hheld. simpl. rewrite Hdown.
  eexists. split; [reflexivity |].
  match goal with |- held ?w1 ?t = _ ∧ _ =>
    assert (Hnow : held w1 t = Some (Handle (getConversationReference activity)))
      by (unfold held; simpl; by rewrite plain_object_get_insert_eq)
  end.
  split; [exact Hnow |]. simpl. split; [done | split; [done |]].
  intros moves h. eapply _setConversationRef_hit.
  by apply held_and_settled_play.
Qed.

Lemma onTurn_store_failure_witness :
  ∃ w' : World,
    onTurn text_activity store_down_world = (Throws (Error "ECONNREFUSED"), w')
    ∧ kvs (bp w') = ∅
    ∧ _setConversationRef "19:thread" handle_b
        (world (play (mkProcess w' []) [Run (Outside empty_services)]))
      = (Returns (), world (play (mkProcess w' []) [Run (Outside empty_services)])).
Proof.
  assert (Hquiet : act_conversation_id text_activity
                   ∉ suspended (mkProcess store_down_world []))
    by apply not_elem_of_nil.
  destruct (onTurn_store_failure text_activity (Error "ECONNREFUSED")
              (mkProcess store_down_world []) eq_refl eq_refl Hquiet eq_refl)
    as (w' & Hrun & _ & Hkvs & _ & Hlater).
  exists w'. split; [exact Hrun | split; [exact Hkvs | apply Hlater]].
Defined.

(** ** Delivery *)

Lemma sendOutgoingEvent_with_handle (event : Event) (ref : JsRef)
    (w : World) :
  messageType event ∈ outgoingTypes →
  held w (e_threadId event) = Some ref →
  sendOutgoingEvent event w = send_with_ref event (Some ref) w.
Proof.
  intros Hkind Hheld. rewrite sendOutgoingEvent_supported by done.
  unfold bind at 1. by rewrite (_getConversationRef_hit _ ref w Hheld).
Qed.

(** A supported event for a thread whose handle is held in-process, on an
    initialised client, is delivered without any call to the store: the
    adapter continues the conversation of that handle and sends the
    translated message, once; nothing else changes. *)
Theorem sendOutgoingEvent_delivers (event : Event) (ref : JsRef)
    (msg : Msg) (a : BotFrameworkAdapter) (w : World) :
  messageType event ∈ outgoingTypes →
  held w (e_threadId event) = Some ref →
  prepare_msg event = Returns msg →
  adapter (this w) = Some a →
  delivery_failure (bp w) ref msg = None →
  ∃ w' : World,
    sendOutgoingEvent event w = (Returns (), w')
    ∧ this w' = this w
    ∧ kvs (bp w') = kvs (bp w)
    ∧ trace (bp w') = trace (bp w) ++ [ContinueConversation ref; SendActivity msg].
Proof.
  intros Hkind Hheld Hmsg Hadapter Hok.
  rewrite (sendOutgoingEvent_with_handle event ref) by done.
  unfold send_with_ref, bind at 1, lift. rewrite Hmsg.
  unfold continueConversation, bind at 1, get_this. rewrite Hadapter.
  unfold bind at 1, emit, try_catch, sendActivity, bind, emit. simpl.
  rewrite Hok. eexists. split; [reflexivity |]. simpl.
  by rewrite <- app_assoc.
Qed.

Lemma sendOutgoingEvent_delivers_witness :
  ∃ w' : World,
    sendOutgoingEvent default_event known_thread_world = (Returns (), w')
    ∧ trace (bp w')
      = [ContinueConversation handle_a; SendActivity (RawPayload text_payload)].
Proof.
  assert (Hkind : messageType default_event ∈ outgoingTypes)
    by (apply includes_spec; reflexivity).
  destruct (sendOutgoingEvent_delivers default_event handle_a (RawPayload text_payload)
              (mkAdapter "app" "secret") known_thread_world
              Hkind eq_refl eq_refl eq_refl eq_refl)
    as (w' & Hrun & _ & _ & Htrace).
  exists w'. split; [exact Hrun | exact Htrace].
Defined.

(** When the platform answers the delivery with an error, that error is
    logged, with the type of the message and the message of the error, and
    then thrown again to the caller of [sendOutgoingEvent], unchanged. *)
Theorem sendOutgoingEvent_delivery_failure (event : Event)
    (ref : JsRef) (msg : Msg) (a : BotFrameworkAdapter)
    (err : JsError) (w : World) :
  messageType event ∈ outgoingTypes →
  held w (e_threadId event) = Some ref →
  prepare_msg event = Returns msg →
  adapter (this w) = Some a →
  delivery_failure (bp w) ref msg = Some err →
  ∃ w' : World,
    sendOutgoingEvent event w = (Throws err, w')
    ∧ this w' = this w
    ∧ kvs (bp w') = kvs (bp w)
    ∧ trace (bp w')
      = trace (bp w)
        ++ [ ContinueConversation ref; SendActivity msg;
             LoggerError (delivery_error_message msg err) err ].
Proof.
  intros Hkind Hheld Hmsg Hadapter Hko.
  rewrite (sendOutgoingEvent_with_handle event ref) by done.
  unfold send_with_ref, bind at 1, lift. rewrite Hmsg.
  unfold continueConversation, bind at 1, get_this. rewrite Hadapter.
  unfold bind at 1, emit, try_catch, sendActivity, bind, emit. simpl.
  rewrite Hko. simpl. eexists. split; [reflexivity |]. simpl.
  by rewrite <- !app_assoc.
Qed.

Lemma sendOutgoingEvent_delivery_failure_witness :
  ∃ w' : World,
    sendOutgoingEvent text_event timeout_world = (Throws (Error "NetworkTimeout"), w')
    ∧ trace (bp w')
      = [ ContinueConversation handle_a; SendActivity (RawPayload text_payload);
          LoggerError "The following error occured when sending a payload of type text to MS Botframework: NetworkTimeout"
                      (Error "NetworkTimeout") ].
Proof.
  assert (Hkind : messageType text_event ∈ outgoingTypes)
    by (apply includes_spec; reflexivity).
  destruct (sendOutgoingEvent_delivery_failure text_event handle_a
              (RawPayload text_payload) (mkAdapter "app" "secret")
              (Error "NetworkTimeout") timeout_world
              Hkind eq_refl eq_refl eq_refl eq_refl)
    as (w' & Hrun & _ & _ & Htrace).
  exists w'. split; [exact Hrun | exact Htrace].
Defined.

Lemma initialize_world (w : World) :
  ∃ t : list Effect,
    (initialize w).2
    = mkWorld
        (mkTeamsClient (botId (this w)) (config (this w))
           (Some {| appId := microsoftAppId (config (this w));
                    appPassword := microsoftAppPassword (config (this w)) |})
           (inMemoryConversationRefs (this w)))
        (mkServices (kvs (bp w)) (kvs_failure (bp w)) (publicPath (bp w))
           (delivery_failure (bp w)) (trace (bp w) ++ t))
    ∧ List.filter is_adapter_call t = []
    ∧ t = match publicPath (bp w) with
          | Returns path =>
              (if String.prefix "https://" path then []
               else [LoggerWarn https_warning])
              ++ [RouterPost "/api/messages"]
          | Throws _ => []
          end.
Proof.
  unfold initialize, bind, get_this, set_adapter, getPublicPath, emit,
    indexOf_is_not_0, ret.
  simpl. destruct (publicPath (bp w)) as [path|err] eqn:Hpath; simpl.
  - destruct (String.prefix "https://" path); simpl; eexists;
      (split; [rewrite ?Hpath, <- ?app_assoc; reflexivity | split; reflexivity]).
  - exists []. rewrite app_nil_r, ?Hpath. repeat split.
    destruct w as [client [store failure path deliver calls]]. simpl in *.
    by subst path.
Qed.

(** On a client that was never initialised, sending a supported event for
    a known thread throws a [TypeError] and nothing is delivered; once
    [initialize] has run on that client, the same event is handed to the
    adapter. *)
Theorem sendOutgoingEvent_needs_initialize (event : Event)
    (ref : JsRef) (msg : Msg) (w : World) :
  messageType event ∈ outgoingTypes →
  held w (e_threadId event) = Some ref →
  prepare_msg event = Returns msg →
  adapter (this w) = None →
  (∃ m : string, sendOutgoingEvent event w = (Throws (TypeError m), w))
  ∧ ∃ w' : World,
      (sendOutgoingEvent event (initialize w).2).2 = w'
      ∧ List.filter is_adapter_call (trace (bp w'))
        = List.filter is_adapter_call (trace (bp w))
          ++ [ContinueConversation ref; SendActivity msg].
Proof.
  intros Hkind Hheld Hmsg Hadapter. split.
  - rewrite (sendOutgoingEvent_with_handle event ref) by done.
    unfold send_with_ref, bind at 1, lift. rewrite Hmsg.
    unfold continueConversation, bind at 1, get_this. rewrite Hadapter.
    eexists. reflexivity.
  - eexists. split; [reflexivity |].
    destruct (initialize_world w) as (t & -> & Hquiet & _).
    rewrite (sendOutgoingEvent_with_handle event ref) by done.
    unfold send_with_ref, bind at 1, lift. rewrite Hmsg.
    unfold continueConversation, bind at 1, get_this.
    unfold bind, emit, try_catch, sendActivity, bind, emit. simpl.
    destruct (delivery_failure (bp w) ref msg); simpl;
      rewrite <- ?app_assoc, !List.filter_app, Hquiet; simpl;
      by rewrite ?app_nil_r.
Qed.

Lemma sendOutgoingEvent_needs_initialize_witness :
  (∃ m : string,
     sendOutgoingEvent text_event uninitialized_world
     = (Throws (TypeError m), uninitialized_world))
  ∧ List.filter is_adapter_call
      (trace (bp (sendOutgoingEvent text_event (initialize uninitialized_world).2).2))
    = [ContinueConversation handle_a; SendActivity (RawPayload text_payload)].
Proof.
  assert (Hkind : messageType text_event ∈ outgoingTypes)
    by (apply includes_spec; reflexivity).
  destruct (sendOutgoingEvent_needs_initialize text_event handle_a
              (RawPayload text_payload) uninitialized_world
              Hkind eq_refl eq_refl eq_refl)
    as (Hthrow & w' & <- & Htrace).
  split; [exact Hthrow | exact Htrace].
Defined.

(** ** Choosing the translation *)

(** For a payload of type [carousel] without [elements] the translation
    throws a [TypeError]; [sendOutgoingEvent] then throws it after the
    handle was resolved and before the adapter is called, so nothing is
    delivered and nothing is logged. *)
Theorem carousel_without_elements_throws (event : Event) :
  p_type (e_payload event) = Some "carousel" →
  p_elements (e_payload event) = None →
  ∃ m : string,
    prepare_msg event = Throws (TypeError m)
    ∧ ∀ (ref : JsRef) (w : World),
        messageType event ∈ outgoingTypes →
        held w (e_threadId event) = Some ref →
        sendOutgoingEvent event w = (Throws (TypeError m), w).
Proof.
  intros Hca Hel.
  exists "Cannot read property 'map' of undefined".
  assert (Hmsg : prepare_msg event
                 = Throws (TypeError "Cannot read property 'map' of undefined")).
  { rewrite prepare_msg_carousel by done.
    unfold _prepareCarouselPayload. by rewrite Hel. }
  split; [exact Hmsg |].
  intros ref w Hkind Hheld.
  rewrite (sendOutgoingEvent_with_handle event ref) by done.
  unfold send_with_ref, bind, lift. by rewrite Hmsg.
Qed.

Lemma carousel_without_elements_throws_witness :
  ∃ e : JsError,
    prepare_msg (event_of broken_carousel) = Throws e
    ∧ sendOutgoingEvent (event_of broken_carousel) known_thread_world
      = (Throws e, known_thread_world).
Proof.
  destruct (carousel_without_elements_throws (event_of broken_carousel)
              eq_refl eq_refl)
    as (m & Hmsg & Hsend).
  exists (TypeError m). split; [exact Hmsg |].
  apply (Hsend handle_a known_thread_world); [| reflexivity].
  apply includes_spec. reflexivity.
Defined.

(** The payload type decides first: a payload of type [typing] is sent as
    the bare typing indicator whatever else it carries, and quick replies
    are only looked at for payloads that are neither typing indicators nor
    carousels. An empty array of quick replies makes no card: the payload
    is sent as it is. *)
Theorem prepare_msg_precedence (event : Event) :
  (p_type (e_payload event) = Some "typing" → prepare_msg event = Returns TypingMsg)
  ∧ (p_type (e_payload event) = Some "carousel" →
     prepare_msg event = _prepareCarouselPayload event)
  ∧ (p_type (e_payload event) ≠ Some "typing" →
     p_type (e_payload event) ≠ Some "carousel" →
     p_quick_replies (e_payload event) = None
     ∨ p_quick_replies (e_payload event) = Some [] →
     prepare_msg event = Returns (RawPayload (e_payload event))).
Proof.
  split; [| split].
  - intros Hty. unfold prepare_msg. by rewrite bool_decide_eq_true_2.
  - apply prepare_msg_carousel.
  - intros Hty Hca Hqr. unfold prepare_msg.
    rewrite !bool_decide_eq_false_2 by done.
    unfold has_quick_replies. by destruct Hqr as [-> | ->].
Qed.

Lemma prepare_msg_precedence_witness :
  prepare_msg (event_of typing_with_replies) = Returns TypingMsg
  ∧ prepare_msg (event_of empty_replies_payload)
    = Returns (RawPayload empty_replies_payload).
Proof.
  split.
  - exact (proj1 (prepare_msg_precedence (event_of typing_with_replies)) eq_refl).
  - apply (proj2 (proj2 (prepare_msg_precedence (event_of empty_replies_payload))));
      [discriminate | discriminate |].
    right. reflexivity.
Defined.

(** ** The other button kinds *)

(** A [say_something] button becomes a [messageBack] action that posts and
    displays the button's text; a [postback] button becomes a
    [messageBack] action that posts the button's payload and has no
    displayed text. The switch yields an action exactly for the three
    known kinds, and every action it yields keeps the button's title. *)
Theorem button_action_kinds (button : Button) :
  (b_type button = "say_something" →
   button_action button
   = Some {| a_type := "messageBack"; a_title := b_title button;
             a_value := b_text button; a_text := b_text button;
             a_displayText := b_text button |})
  ∧ (b_type button = "postback" →
     button_action button
     = Some {| a_type := "messageBack"; a_title := b_title button;
               a_value := b_payload button; a_text := b_payload button;
               a_displayText := None |})
  ∧ (is_Some (button_action button)
     ↔ b_type button ∈ ["open_url"; "say_something"; "postback"])
  ∧ (∀ action : CardAction,
       button_action button = Some action →
       a_title action = b_title button
       ∧ a_type action ∈ ["openUrl"; "messageBack"]).
Proof.
  split; [| split; [| split]].
  - intros Hty. unfold button_action. by rewrite Hty.
  - intros Hty. unfold button_action. by rewrite Hty.
  - split.
    + intros Hsome.
      destruct (decide (b_type button ∈ ["open_url"; "say_something"; "postback"]))
        as [Hin|Hout]; [done |].
      rewrite (button_action_other button Hout) in Hsome.
      by destruct Hsome.
    + intros Hin. unfold button_action.
      repeat (apply elem_of_cons in Hin as [-> | Hin]; [by eexists |]).
      by apply elem_of_nil in Hin.
  - intros action. unfold button_action.
    repeat (case_match; [intros [= <-]; simpl; split; [done |];
                         apply includes_spec; reflexivity |]).
    discriminate.
Qed.

Lemma button_action_kinds_witness :
  button_action (mkButton "say_something" (Some "Hi") None (Some "hello there") None)
  = Some (mkCardAction "messageBack" (Some "Hi") (Some "hello there")
            (Some "hello there") (Some "hello there"))
  ∧ button_action (mkButton "postback" (Some "Buy") None None (Some "buy"))
    = Some (mkCardAction "messageBack" (Some "Buy") (Some "buy") (Some "buy") None).
Proof.
  split.
  - exact (proj1 (button_action_kinds
                    (mkButton "say_something" (Some "Hi") None (Some "hello there") None))
             eq_refl).
  - exact (proj1 (proj2 (button_action_kinds
                           (mkButton "postback" (Some "Buy") None None (Some "buy"))))
             eq_refl).
Defined.

(** ** What sending never does *)

Lemma reads_only_refl (w : World) : reads_only w w.
Proof. split; [done |]. exists []. by rewrite app_nil_r. Qed.

Lemma reads_only_trans (w1 w2 w3 : World) :
  reads_only w1 w2 → reads_only w2 w3 → reads_only w1 w3.
Proof.
  intros (K1 & t1 & H1 & N1) (K2 & t2 & H2 & N2).
  split; [congruence |]. exists (t1 ++ t2). split.
  - by rewrite H2, H1, app_assoc.
  - by rewrite List.filter_app, N1, N2.
Qed.

Lemma reads_only_emit (e : Effect) :
  is_store_write_or_bus_event e = false → respects reads_only (emit e).
Proof.
  intros He w. split; [done |]. exists [e]. split; [done |].
  simpl. by rewrite He.
Qed.

Lemma reads_only_get (threadId : string) :
  respects reads_only (_getConversationRef threadId).
Proof.
  intros w. unfold _getConversationRef, bind at 1, read_ref.
  destruct (plain_object_get _ _); [apply reads_only_refl |].
  unfold bind at 1, get_this, kvs_get, bind at 1, bind at 1, emit.
  destruct (kvs_failure _); simpl;
    (split; [done | by exists [KvsGet (botId (this w)) threadId]]).
Qed.

Lemma reads_only_send_with_ref (event : Event) (ref : option JsRef) :
  respects reads_only (send_with_ref event ref).
Proof.
  destruct ref as [ref|]; simpl; [| by apply reads_only_emit].
  apply respects_bind;
    [apply reads_only_trans | apply respects_lift, reads_only_refl |].
  intros msg. apply respects_bind;
    [apply reads_only_trans | apply respects_get_this, reads_only_refl |].
  intros self. destruct (adapter self); [| apply respects_throw, reads_only_refl].
  apply respects_bind; [apply reads_only_trans | by apply reads_only_emit |].
  intros _. apply respects_try_catch; [apply reads_only_trans | |].
  - apply respects_bind; [apply reads_only_trans | by apply reads_only_emit |].
    intros _ w. destruct (delivery_failure (bp w) ref msg); apply reads_only_refl.
  - intros err. apply respects_bind;
      [apply reads_only_trans | by apply reads_only_emit |].
    intros _. apply respects_throw, reads_only_refl.
Qed.

Lemma reads_only_sendOutgoingEvent (event : Event) :
  respects reads_only (sendOutgoingEvent event).
Proof.
  unfold sendOutgoingEvent. destruct (negb _); [apply respects_throw, reads_only_refl |].
  apply respects_bind;
    [apply reads_only_trans | apply reads_only_get | apply reads_only_send_with_ref].
Qed.

(** Whatever the event, the state of the client and the answers of the
    store and of the platform, [sendOutgoingEvent] never writes the durable
    store and never sends an event to the bus: the store is as before and
    the calls it adds to the trace are reads of the store, log entries and
    calls of the adapter only. *)
Theorem sendOutgoingEvent_reads_only (event : Event) (w : World) :
  kvs (bp (sendOutgoingEvent event w).2) = kvs (bp w)
  ∧ ∃ t : list Effect,
      trace (bp (sendOutgoingEvent event w).2) = trace (bp w) ++ t
      ∧ List.filter is_store_write_or_bus_event t = [].
Proof. apply reads_only_sendOutgoingEvent. Qed.

(** ** The in-process mapping *)

(** What the in-process mapping holds for a thread is never replaced nor
    dropped, provided no lookup of that thread is suspended at its store
    read: through every sequence of calls on the client, overlapping or
    not, and of changes of the services, the mapping still holds it, no
    lookup of the thread gets suspended, [_getConversationRef] returns it
    and [_setConversationRef] with any other handle does nothing. *)
Theorem held_handle_is_permanent (threadId : string) (h : JsRef)
    (p : Process) (moves : list Move) :
  held (world p) threadId = Some h →
  threadId ∉ suspended p →
  held (world (play p moves)) threadId = Some h
  ∧ (threadId ∉ suspended (play p moves))
  ∧ _getConversationRef threadId (world (play p moves))
    = (Returns (Some h), world (play p moves))
  ∧ ∀ h' : ConversationReference,
      _setConversationRef threadId h' (world (play p moves))
      = (Returns (), world (play p moves)).
Proof.
  intros Hheld Hquiet.
  destruct (held_and_settled_play moves p threadId h Hheld Hquiet)
    as [Hlater Hquiet'].
  split; [exact Hlater | split; [exact Hquiet' |]].
  split; [by apply _getConversationRef_hit |].
  intros h'. by eapply _setConversationRef_hit.
Qed.

Lemma held_handle_is_permanent_witness :
  held (world (play (mkProcess known_thread_world [])
                 [Run (OnTurn later_activity); BeginLookup "19:thread";
                  Run (SetConversationRef "19:thread" handle_b);
                  ResumeLookup "19:other" (Returns None) None;
                  Run (SendOutgoingEvent text_event); Run Initialize]))
       "19:thread"
  = Some (Handle handle_a).
Proof.
  exact (proj1 (held_handle_is_permanent "19:thread" handle_a
                  (mkProcess known_thread_world [])
                  [Run (OnTurn later_activity); BeginLookup "19:thread";
                   Run (SetConversationRef "19:thread" handle_b);
                   ResumeLookup "19:other" (Returns None) None;
                   Run (SendOutgoingEvent text_event); Run Initialize]
                  eq_refl (not_elem_of_nil _))).
Defined.

(** A lookup that goes on after its store read assigns the answer to the
    in-process mapping whatever the mapping holds by then: a handle
    recorded in the meantime is replaced by the answer, and dropped when
    the answer is absent. When the answer is a handle and no other lookup
    of the thread is suspended, that handle then stays, through every
    sequence of calls, overlapping or not. *)
Theorem resumed_lookup_overwrites (threadId : string)
    (answer : option ConversationReference) (rest : option Event) (p : Process) :
  threadId ∈ suspended p →
  held (world (move p (ResumeLookup threadId (Returns answer) rest))) threadId
  = Handle <$> answer
  ∧ ∀ h : ConversationReference,
      answer = Some h →
      threadId ∉ remove_first threadId (suspended p) →
      ∀ moves : list Move,
        _getConversationRef threadId
          (world (play (move p (ResumeLookup threadId (Returns answer) rest)) moves))
        = (Returns (Some (Handle h)),
           world (play (move p (ResumeLookup threadId (Returns answer) rest)) moves)).
Proof.
  intros Hin.
  assert (Hnow : held (world (move p (ResumeLookup threadId (Returns answer) rest)))
                   threadId
                 = Handle <$> answer).
  { simpl. rewrite bool_decide_eq_true_2 by done. simpl.
    unfold resume_lookup, bind at 1, lift, bind at 1, _getConversationRef_resume,
      bind at 1, write_ref, ret. simpl.
    match goal with |- held (?m ?w1).2 _ = _ =>
      assert (Hwritten : held w1 threadId = Handle <$> answer)
        by (unfold held; simpl; apply plain_object_get_insert_eq)
    end.
    destruct rest as [event|]; [| exact Hwritten].
    unfold held in *. by rewrite send_with_ref_same_refs. }
  split; [exact Hnow |].
  intros h -> Hquiet moves. apply _getConversationRef_hit.
  apply held_and_settled_play; [exact Hnow |].
  simpl. by rewrite bool_decide_eq_true_2.
Qed.

Lemma resumed_lookup_overwrites_witness :
  held (world (play (mkProcess fresh_world [])
                 [ BeginLookup "19:thread";
                   Run (SetConversationRef "19:thread" handle_a) ]))
       "19:thread"
  = Some (Handle handle_a)
  ∧ held (world (play (mkProcess fresh_world [])
                   [ BeginLookup "19:thread";
                     Run (SetConversationRef "19:thread" handle_a);
                     ResumeLookup "19:thread" (Returns None) None ]))
         "19:thread"
    = None.
Proof.
  split; [reflexivity |].
  assert (Hin : "19:thread"
                ∈ suspended (play (mkProcess fresh_world [])
                               [ BeginLookup "19:thread";
                                 Run (SetConversationRef "19:thread" handle_a) ]))
    by apply list_elem_of_here.
  exact (proj1 (resumed_lookup_overwrites "19:thread" None None _ Hin)).
Defined.

(** Recording or resolving one thread leaves every other thread as it is,
    in the in-process mapping and in the durable store; and records of
    other bots in the store are never touched. *)
Theorem other_threads_untouched (threadId other : string)
    (h : ConversationReference) (w : World) :
  other ≠ threadId →
  held (_setConversationRef threadId h w).2 other = held w other
  ∧ stored (_setConversationRef threadId h w).2 other = stored w other
  ∧ held (_getConversationRef threadId w).2 other = held w other
  ∧ kvs (bp (_getConversationRef threadId w).2) = kvs (bp w)
  ∧ ∀ bot key : string,
      bot ≠ botId (this w) →
      kvs (bp (_setConversationRef threadId h w).2) !! (bot, key)
      = kvs (bp w) !! (bot, key).
Proof.
  intros Hne. unfold held, stored.
  unfold _setConversationRef, _getConversationRef, bind, read_ref, write_ref,
    get_this, kvs_set, kvs_get, bind, emit, ret.
  destruct (plain_object_get (inMemoryConversationRefs (this w)) threadId); simpl.
  - done.
  - destruct (kvs_failure (bp w)); simpl;
      rewrite ?plain_object_get_insert_ne by congruence;
      rewrite ?lookup_insert_ne by congruence;
      repeat split; try done;
      intros bot key Hbot; rewrite ?lookup_insert_ne by congruence; done.
Qed.

Lemma other_threads_untouched_witness :
  held (_setConversationRef "19:other" handle_b known_thread_world).2 "19:thread"
  = Some (Handle handle_a)
  ∧ stored (_setConversationRef "19:other" handle_b stored_only_world).2 "19:thread"
    = Some handle_a.
Proof.
  split.
  - exact (proj1 (other_threads_untouched "19:other" "19:thread" handle_b
                    known_thread_world ltac:(discriminate))).
  - exact (proj1 (proj2 (other_threads_untouched "19:other" "19:thread" handle_b
                           stored_only_world ltac:(discriminate)))).
Defined.

(** A thread the store does not know is not remembered as unknown: when
    the in-process mapping reads [undefined] for it, the miss reads the
    store and leaves the mapping reading [undefined], so the next
    [_getConversationRef] reads the store again and returns the handle as
    soon as the store holds one. *)
Theorem unknown_thread_is_looked_up_again (threadId : string) (w : World) :
  held w threadId = None →
  stored w threadId = None →
  kvs_failure (bp w) = None →
  ∃ w1 : World,
    _getConversationRef threadId w = (Returns None, w1)
    ∧ held w1 threadId = None
    ∧ trace (bp w1) = trace (bp w) ++ [KvsGet (botId (this w)) threadId]
    ∧ (∃ w2 : World,
         _getConversationRef threadId w1 = (Returns None, w2)
         ∧ trace (bp w2)
           = trace (bp w) ++ [ KvsGet (botId (this w)) threadId;
                               KvsGet (botId (this w)) threadId ])
    ∧ ∀ (s : Services) (h : ConversationReference),
        kvs s !! (botId (this w), threadId) = Some h →
        kvs_failure s = None →
        (_getConversationRef threadId (perform w1 (Outside s))).1
        = Returns (Some (Handle h)).
Proof.
  intros Hheld Hstored Hup.
  rewrite _getConversationRef_miss by done. rewrite Hstored.
  eexists. split; [reflexivity |].
  match goal with |- held ?w1 threadId = _ ∧ _ =>
    assert (Hnow : held w1 threadId = None)
      by (unfold held; simpl; by rewrite plain_object_get_insert_eq)
  end.
  split; [exact Hnow |]. split; [done |]. split.
  - rewrite _getConversationRef_miss by done.
    unfold stored in *. simpl. rewrite Hstored.
    eexists. split; [reflexivity |]. simpl. by rewrite <- app_assoc.
  - intros s h Hs Hsup.
    rewrite _getConversationRef_miss; [| exact Hnow | exact Hsup].
    unfold stored. simpl. by rewrite Hs.
Qed.

Lemma unknown_thread_is_looked_up_again_witness :
  ∃ w1 : World,
    _getConversationRef "19:thread" fresh_world = (Returns None, w1)
    ∧ held w1 "19:thread" = None
    ∧ (_getConversationRef "19:thread"
         (perform w1 (Outside (bp stored_only_world)))).1
      = Returns (Some (Handle handle_a)).
Proof.
  destruct (unknown_thread_is_looked_up_again "19:thread" fresh_world
              eq_refl eq_refl eq_refl)
    as (w1 & Hrun & Hheld & _ & _ & Hlater).
  exists w1. split; [exact Hrun | split; [exact Hheld |]].
  exact (Hlater (bp stored_only_world) handle_a eq_refl eq_refl).
Defined.

(** ** Initialisation *)

(** [initialize] assigns the adapter, made from the configured application
    id and password, before anything else, and never touches the
    conversation references, the store or the rest of the client. When
    [router.getPublicPath()] resolves, it returns after logging the HTTPS
    warning exactly when the public path does not start with [https://]
    and registering the route [/api/messages]; it does not look at whether
    it ran before, so a second call registers the route a second time.
    When [router.getPublicPath()] rejects, [initialize] rejects with the
    same error and no route is registered. Creating the adapter and
    registering the route are taken not to fail. *)
Theorem initialize_effects (w : World) :
  adapter (this (initialize w).2)
  = Some {| appId := microsoftAppId (config (this w));
            appPassword := microsoftAppPassword (config (this w)) |}
  ∧ same_but_adapter_and_trace w (initialize w).2
  ∧ (∀ path : string,
       publicPath (bp w) = Returns path →
       (initialize w).1 = Returns ()
       ∧ trace (bp (initialize w).2)
         = trace (bp w)
           ++ (if String.prefix "https://" path then []
               else [LoggerWarn https_warning])
           ++ [RouterPost "/api/messages"]
       ∧ List.filter is_router_post (trace (bp (initialize (initialize w).2).2))
         = List.filter is_router_post (trace (bp w))
           ++ [RouterPost "/api/messages"; RouterPost "/api/messages"])
  ∧ (∀ err : JsError,
       publicPath (bp w) = Throws err →
       (initialize w).1 = Throws err
       ∧ trace (bp (initialize w).2) = trace (bp w)).
Proof.
  destruct (initialize_world w) as (t & Hw & _ & Ht).
  rewrite Hw. simpl.
  split; [done |]. split; [by repeat split |].
  split.
  - intros path Hpath. rewrite Hpath in Ht. subst t.
    split.
    { unfold initialize, bind, get_this, set_adapter, getPublicPath, emit, ret.
      simpl. rewrite Hpath. simpl.
      by destruct (indexOf_is_not_0 "https://" path). }
    split; [done |].
    match goal with |- context [initialize ?w1] =>
      destruct (initialize_world w1) as (t' & -> & _ & Ht')
    end.
    simpl in *. rewrite Hpath in Ht'. subst t'.
    destruct (String.prefix "https://" path); simpl;
      rewrite <- ?app_assoc, !List.filter_app; simpl;
      by rewrite ?app_nil_r, <- ?app_assoc.
  - intros err Hpath. rewrite Hpath in Ht. subst t.
    split; [| apply app_nil_r].
    unfold initialize, bind, get_this, set_adapter, getPublicPath, emit, ret.
    simpl. by rewrite Hpath.
Qed.

Lemma initialize_effects_witness :
  (initialize uninitialized_world).1 = Returns ()
  ∧ trace (bp (initialize uninitialized_world).2)
    = [LoggerWarn https_warning; RouterPost "/api/messages"].
Proof.
  destruct (proj1 (proj2 (proj2 (initialize_effects uninitialized_world)))
              "http://bot.example" eq_refl)
    as (Hrun & Htrace & _).
  split; [exact Hrun | exact Htrace].
Defined.

(** ** The bus around the handler *)

(** The handler works on the client of the event's bot only: the clients
    registered for other bots are left as they are, no client is added or
    removed, and the durable store is never written. An event of another
    channel, or of a bot that has no client and is not named like a member
    of [Object.prototype], is passed on with a single [next()] and changes
    nothing else. *)
Theorem outgoingHandler_frame (event : Event) (b : Bus) :
  kvs (services (outgoingHandler event b)) = kvs (services b)
  ∧ (∀ other : string,
       other ≠ e_botId event →
       clients (outgoingHandler event b) !! other = clients b !! other)
  ∧ dom (clients (outgoingHandler event b)) = dom (clients b)
  ∧ (e_channel event ≠ "teams"
     ∨ (clients b !! e_botId event = None ∧ e_botId event ∉ Object_prototype) →
     clients (outgoingHandler event b) = clients b
     ∧ trace (services (outgoingHandler event b))
       = trace (services b) ++ [Next None None]).
Proof.
  unfold outgoingHandler.
  destruct (String.eqb_spec (e_channel event) "teams") as [Hch|Hch]; simpl.
  - destruct (clients b !! e_botId event) as [client|] eqn:Hclient; simpl.
    + unfold call_on.
      pose proof (reads_only_sendOutgoingEvent event (mkWorld client (services b)))
        as (Hkvs & _).
      destruct (sendOutgoingEvent event (mkWorld client (services b)))
        as [[[]|err] w']; simpl in *;
        (split; [done |]);
        (split; [intros other Hne; by rewrite lookup_insert_ne |]);
        (split; [apply dom_insert_lookup_L; by eexists |]);
        intros [? | [? _]]; congruence.
    + destruct (inherited (e_botId event)) eqn:Hin; simpl.
      * do 3 (split; [done |]).
        intros [? | [_ Hout]]; [done |].
        apply includes_false in Hout. unfold inherited in Hin. congruence.
      * repeat split; done.
  - repeat split; done.
Qed.

Lemma outgoingHandler_frame_witness :
  clients (outgoingHandler text_event two_bot_bus) !! "bot2" = clients two_bot_bus !! "bot2"
  ∧ clients (outgoingHandler (mkEvent "text" "web" "bot1" "19:thread" text_payload)
               two_bot_bus)
    = clients two_bot_bus.
Proof.
  split.
  - apply (proj1 (proj2 (outgoingHandler_frame text_event two_bot_bus))).
    discriminate.
  - apply (proj2 (proj2 (proj2 (outgoingHandler_frame
                                   (mkEvent "text" "web" "bot1" "19:thread" text_payload)
                                   two_bot_bus)))).
    left. discriminate.
Defined.

(** ** The batch update of package.json files *)

Section BatchUpdateFacts.

Import BatchUpdate.

Lemma add_fstream_resolution_author (content : PackageJson) :
  author (add_fstream_resolution content).1 = author content
  ∧ other_fields (add_fstream_resolution content).1 = other_fields content
  ∧ botpress_author (add_fstream_resolution content).1 = botpress_author content.
Proof.
  unfold add_fstream_resolution, botpress_author.
  destruct (resolutions content) as [r|]; [| done].
  by destruct (negb _).
Qed.

Lemma add_fstream_resolution_again (content : PackageJson) :
  (add_fstream_resolution (add_fstream_resolution content).1).2 = false.
Proof.
  unfold add_fstream_resolution.
  destruct (resolutions content) as [r|] eqn:Hr; simpl.
  - destruct (negb (truthy_string (r !! "fstream"))) eqn:Hf; simpl.
    + by rewrite lookup_insert_eq.
    + by rewrite Hr, Hf.
  - by rewrite lookup_insert_eq.
Qed.



Lemma amend_file_dry_run (yarnInstall : bool)
    (body : PackageJson → string → PackageJson * bool)
    (file : string) (count : nat) (h : Host) :
  disk (amend_file true yarnInstall body file count h).2 = disk h
  ∧ List.filter is_change (output (amend_file true yarnInstall body file count h).2)
    = List.filter is_change (output h).
Proof.
  unfold amend_file.
  destruct (disk h !! file) as [[content|]|]; [| done | done].
  destruct (botpress_author content) as [[|]|e]; [| done | done].
  destruct (body content file) as [content' save].
  destruct save; simpl; rewrite List.filter_app; simpl; by rewrite app_nil_r.
Qed.

Lemma amend_all_dry_run (yarnInstall : bool)
    (body : PackageJson → string → PackageJson * bool)
    (files : list string) (count : nat) (h : Host) :
  disk (amend_all true yarnInstall body files count h).2 = disk h
  ∧ List.filter is_change (output (amend_all true yarnInstall body files count h).2)
    = List.filter is_change (output h).
Proof.
  revert count h. induction files as [|file files IH]; intros count h; simpl; [done |].
  pose proof (amend_file_dry_run yarnInstall body file count h) as [Hd Ho].
  destruct (amend_file true yarnInstall body file count h) as [[count'|e] h1];
    simpl in *; [| done].
  destruct (IH count' h1) as [Hd' Ho']. split; congruence.
Qed.

Lemma report_prints_only (dry : bool) (files : list string) (count : nat) (h : Host) :
  disk (report dry files count h) = disk h
  ∧ List.filter is_change (output (report dry files count h))
    = List.filter is_change (output h).
Proof.
  unfold report. destruct (Nat.ltb 0 count); [destruct dry |]; simpl;
    rewrite ?List.filter_app; simpl; by rewrite ?app_nil_r.
Qed.

(** Without [--apply] among the arguments nothing is changed, whatever the
    consumer of the generator does with the contents it is handed: no file
    is written, [err.out] is not opened and yarn is not run; the script
    only prints. *)
Theorem dry_run_changes_nothing (argv files : list string) (yarnInstall : bool)
    (body : PackageJson → string → PackageJson * bool) (h : Host) :
  "--apply" ∉ argv →
  IS_DRY_RUN argv = true
  ∧ disk (amendFiles (IS_DRY_RUN argv) files yarnInstall body h).2 = disk h
  ∧ List.filter is_change
      (output (amendFiles (IS_DRY_RUN argv) files yarnInstall body h).2)
    = List.filter is_change (output h)
  ∧ disk (main argv files h).2 = disk h.
Proof.
  intros Hargv.
  assert (Hdry : IS_DRY_RUN argv = true).
  { unfold IS_DRY_RUN. apply includes_false in Hargv. by rewrite Hargv. }
  assert (Hrun : ∀ yi b,
             disk (amendFiles true files yi b h).2 = disk h
             ∧ List.filter is_change (output (amendFiles true files yi b h).2)
               = List.filter is_change (output h)).
  { intros yi b. unfold amendFiles.
    pose proof (amend_all_dry_run yi b files 0 h) as [Hd Ho].
    destruct (amend_all true yi b files 0 h) as [[count|e] h1]; simpl in *; [| done].
    destruct (report_prints_only true files count h1) as [Hd' Ho'].
    split; congruence. }
  unfold main. rewrite Hdry.
  split; [done |]. destruct (Hrun yarnInstall body) as [Hd Ho].
  split; [exact Hd | split; [exact Ho | apply Hrun]].
Qed.

Lemma dry_run_changes_nothing_witness :
  disk (main ["node"; "batch-update.ts"] sample_files sample_host).2 = disk sample_host.
Proof.
  assert (Hargv : "--apply" ∉ ["node"; "batch-update.ts"])
    by (apply includes_false; reflexivity).
  exact (proj2 (proj2 (proj2 (dry_run_changes_nothing ["node"; "batch-update.ts"]
                                sample_files true
                                fstream_body
                                sample_host Hargv)))).
Defined.

Lemma amended_from_refl (d : gmap string (option PackageJson)) : amended_from d d.
Proof. intros file. by left. Qed.

Lemma amend_file_amended_from (dry yarnInstall : bool) (file : string) (count : nat)
    (h : Host) (d0 : gmap string (option PackageJson)) :
  amended_from d0 (disk h) →
  amended_from d0
    (disk (amend_file dry yarnInstall fstream_body
             file count h).2).
Proof.
  intros Hinv. unfold amend_file.
  destruct (disk h !! file) as [[content|]|] eqn:Hfile; [| done | done].
  destruct (botpress_author content) as [[|]|e] eqn:Hauthor; [| done | done].
  unfold fstream_body.
  destruct (add_fstream_resolution content) as [content' save] eqn:Hamend.
  destruct save; simpl; [| done].
  assert (Hwritten : amended_from d0 (<[file := Some content']> (disk h))).
  { intros g. destruct (decide (g = file)) as [->|Hne].
    - rewrite lookup_insert_eq. right.
      destruct (Hinv file) as [Hsame | (c & Hc & _ & Hnow)].
      + exists content. rewrite <- Hsame, Hfile.
        split; [done |]. split; [| by rewrite Hamend].
        split; [done | by rewrite Hamend].
      + rewrite Hfile in Hnow. injection Hnow as ->.
        pose proof (add_fstream_resolution_again c) as Hagain.
        rewrite Hamend in Hagain. discriminate.
    - rewrite lookup_insert_ne by done. apply Hinv. }
  destruct dry; simpl; [exact Hinv |].
  destruct yarnInstall; [| exact Hwritten].
  unfold yarn_install. simpl. destruct (yarn_fails h file); exact Hwritten.
Qed.

Lemma amend_all_amended_from (dry yarnInstall : bool) (files : list string)
    (count : nat) (h : Host) (d0 : gmap string (option PackageJson)) :
  amended_from d0 (disk h) →
  amended_from d0
    (disk (amend_all dry yarnInstall fstream_body
             files count h).2).
Proof.
  revert count h. induction files as [|file files IH]; intros count h Hinv; simpl;
    [done |].
  pose proof (amend_file_amended_from dry yarnInstall file count h d0 Hinv) as Hstep.
  destruct (amend_file dry yarnInstall _ file count h) as [[count'|e] h1];
    simpl in *; [by apply IH | done].
Qed.

Lemma main_amended_from (argv files : list string) (h : Host) :
  amended_from (disk h) (disk (main argv files h).2).
Proof.
  unfold main, amendFiles.
  pose proof (amend_all_amended_from (IS_DRY_RUN argv) true files 0 h (disk h)
                (amended_from_refl _)) as Hall.
  destruct (amend_all _ _ _ files 0 h) as [[count|e] h1]; simpl in *; [| exact Hall].
  by rewrite (proj1 (report_prints_only _ files count h1)).
Qed.





Lemma settled_amended (content : PackageJson) (file : string)
    (d : gmap string (option PackageJson)) :
  botpress_author content = Returns true →
  settled (<[file := Some (add_fstream_resolution content).1]> d) file.
Proof.
  intros Hauthor. exists (Some (add_fstream_resolution content).1).
  rewrite lookup_insert_eq. split; [done |].
  intros c [= <-]. right. split.
  - by rewrite (proj2 (proj2 (add_fstream_resolution_author content))).
  - apply add_fstream_resolution_again.
Qed.

Lemma amend_file_keeps_settled (dry yarnInstall : bool) (file g : string)
    (count : nat) (h : Host) :
  settled (disk h) g →
  settled (disk (amend_file dry yarnInstall fstream_body file count h).2) g.
Proof.
  intros Hg. unfold amend_file.
  destruct (disk h !! file) as [[content|]|] eqn:Hfile; [| exact Hg | exact Hg].
  destruct (botpress_author content) as [[|]|e] eqn:Hauthor; [| exact Hg | exact Hg].
  unfold fstream_body.
  destruct (add_fstream_resolution content) as [content' save] eqn:Hamend.
  destruct save; simpl; [| exact Hg].
  assert (Hwritten : settled (<[file := Some content']> (disk h)) g).
  { destruct (decide (g = file)) as [->|Hne].
    - replace content' with (add_fstream_resolution content).1 by (by rewrite Hamend).
      by apply settled_amended.
    - destruct Hg as (doc & Hdoc & Hskip). exists doc.
      by rewrite lookup_insert_ne. }
  destruct dry; simpl; [exact Hg |].
  destruct yarnInstall; [| exact Hwritten].
  unfold yarn_install. simpl. destruct (yarn_fails h file); exact Hwritten.
Qed.

Lemma amend_file_settles (yarnInstall : bool) (file : string) (count count' : nat)
    (h h' : Host) :
  amend_file false yarnInstall fstream_body file count h = (Returns count', h') →
  settled (disk h') file.
Proof.
  unfold amend_file.
  destruct (disk h !! file) as [[content|]|] eqn:Hfile; [| | discriminate].
  - destruct (botpress_author content) as [[|]|e] eqn:Hauthor; [| | discriminate].
    + unfold fstream_body.
      destruct (add_fstream_resolution content) as [content' save] eqn:Hamend.
      destruct save; simpl.
      * intros [= _ <-].
        replace content' with (add_fstream_resolution content).1 by (by rewrite Hamend).
        pose proof (settled_amended content file (disk h) Hauthor) as Hs.
        destruct yarnInstall; [| exact Hs].
        unfold yarn_install. simpl. destruct (yarn_fails h file); exact Hs.
      * intros [= _ <-]. simpl. exists (Some content). split; [done |].
        intros c [= <-]. right. by rewrite Hamend.
    + intros [= _ <-]. exists (Some content). split; [done |].
      intros c [= <-]. by left.
  - intros [= _ <-]. exists None. split; [done | discriminate].
Qed.

Lemma amend_all_keeps_settled (dry yarnInstall : bool) (files : list string)
    (g : string) (count : nat) (h : Host) :
  settled (disk h) g →
  settled (disk (amend_all dry yarnInstall fstream_body files count h).2) g.
Proof.
  revert count h. induction files as [|file files IH]; intros count h Hg; simpl;
    [exact Hg |].
  pose proof (amend_file_keeps_settled dry yarnInstall file g count h Hg) as Hstep.
  destruct (amend_file dry yarnInstall _ file count h) as [[count'|e] h1];
    simpl in *; [by apply IH | exact Hstep].
Qed.

Lemma amend_all_settles (yarnInstall : bool) (files : list string)
    (count count' : nat) (h h' : Host) :
  amend_all false yarnInstall fstream_body files count h = (Returns count', h') →
  Forall (settled (disk h')) files.
Proof.
  revert count h. induction files as [|file files IH]; intros count h; simpl;
    [by constructor |].
  destruct (amend_file false yarnInstall _ file count h) as [[count1|e] h1] eqn:Hstep;
    [| discriminate].
  intros Hrest. constructor; [| by eapply IH].
  apply amend_file_settles in Hstep.
  pose proof (amend_all_keeps_settled false yarnInstall files file count1 h1 Hstep)
    as Hkeep.
  by rewrite Hrest in Hkeep.
Qed.

Lemma amend_all_on_settled (dry yarnInstall : bool) (files : list string)
    (count : nat) (h : Host) :
  Forall (settled (disk h)) files →
  ∃ h' : Host,
    amend_all dry yarnInstall fstream_body files count h = (Returns count, h')
    ∧ disk h' = disk h
    ∧ yarn_fails h' = yarn_fails h
    ∧ List.filter is_change (output h') = List.filter is_change (output h).
Proof.
  revert h. induction files as [|file files IH]; intros h Hall; simpl;
    [by exists h |].
  apply Forall_cons in Hall as [(doc & Hdoc & Hskip) Hrest].
  assert (Hstep : ∃ h1 : Host,
             amend_file dry yarnInstall fstream_body file count h = (Returns count, h1)
             ∧ disk h1 = disk h ∧ yarn_fails h1 = yarn_fails h
             ∧ List.filter is_change (output h1) = List.filter is_change (output h)).
  { unfold amend_file. rewrite Hdoc.
    destruct doc as [content|]; [| by exists h].
    destruct (Hskip content eq_refl) as [-> | [-> Hsave]]; [by exists h |].
    unfold fstream_body.
    destruct (add_fstream_resolution content) as [content' save]. simpl in Hsave.
    subst save. simpl. eexists. split; [reflexivity |]. simpl.
    rewrite List.filter_app. simpl. by rewrite app_nil_r. }
  destruct Hstep as (h1 & -> & Hd & Hy & Ho).
  destruct (IH h1) as (h' & Hrun & Hd' & Hy' & Ho'); [by rewrite Hd |].
  exists h'. rewrite Hrun. repeat split; congruence.
Qed.

(** The script is idempotent: after a run with [--apply] that came to its
    end, every listed package that needed the fstream resolution has it on
    disk, and a further run over the same files, with or without
    [--apply], finds nothing to do: it ends, writes no file, runs no yarn
    and closes with the line [There are no changes]. *)
Theorem main_apply_then_nothing_to_do (argv argv' files : list string)
    (h h1 : Host) :
  "--apply" ∈ argv →
  main argv files h = (Returns (), h1) →
  (∀ (file : string) (content : PackageJson),
     file ∈ files →
     disk h !! file = Some (Some content) →
     needs_fstream content →
     disk h1 !! file = Some (Some (add_fstream_resolution content).1))
  ∧ ∃ h2 : Host,
      main argv' files h1 = (Returns (), h2)
      ∧ disk h2 = disk h1
      ∧ List.filter is_change (output h2) = List.filter is_change (output h1)
      ∧ last (output h2) = Some (ConsoleLog "There are no changes").
Proof.
  intros Hargv Hrun.
  assert (Hdry : IS_DRY_RUN argv = false).
  { unfold IS_DRY_RUN. apply includes_spec in Hargv. by rewrite Hargv. }
  assert (Hsettled : Forall (settled (disk h1)) files).
  { unfold main, amendFiles in Hrun. rewrite Hdry in Hrun.
    destruct (amend_all false true _ files 0 h) as [[count|e] h0] eqn:Hall;
      [| discriminate].
    injection Hrun as <-.
    rewrite (proj1 (report_prints_only false files count h0)).
    by eapply amend_all_settles. }
  split.
  - intros file content Hin Hfile [Hauthor Hsave].
    destruct (main_amended_from argv files h file)
      as [Hsame | (c & Hc & _ & Hnow)].
    + rewrite Hrun in Hsame. simpl in Hsame.
      rewrite Forall_forall in Hsettled.
      destruct (Hsettled file Hin) as (doc & Hdoc & Hskip).
      rewrite Hsame, Hfile in Hdoc. injection Hdoc as <-.
      destruct (Hskip content eq_refl) as [? | [_ ?]]; congruence.
    + rewrite Hrun in Hnow. simpl in Hnow. congruence.
  - unfold main, amendFiles.
    destruct (amend_all_on_settled (IS_DRY_RUN argv') true files 0 h1 Hsettled)
      as (h2 & -> & Hd & _ & Ho).
    eexists. split; [reflexivity |]. unfold report. simpl.
    split; [done |]. split.
    + rewrite !List.filter_app. simpl. by rewrite !app_nil_r.
    + by rewrite last_snoc.
Qed.

Lemma main_apply_then_nothing_to_do_witness :
  ∃ h1 h2 : Host,
    main ["--apply"] sample_files sample_host = (Returns (), h1)
    ∧ disk h1 !! "modules/a/package.json"
      = Some (Some (add_fstream_resolution botpress_package).1)
    ∧ main [] sample_files h1 = (Returns (), h2)
    ∧ disk h2 = disk h1.
Proof.
  assert (Hargv : "--apply" ∈ ["--apply"]) by (apply includes_spec; reflexivity).
  assert (Hrun : main ["--apply"] sample_files sample_host
                 = (Returns (), (main ["--apply"] sample_files sample_host).2))
    by reflexivity.
  destruct (main_apply_then_nothing_to_do ["--apply"] [] sample_files sample_host _
              Hargv Hrun)
    as (Hamended & h2 & Hagain & Hdisk & _).
  exists (main ["--apply"] sample_files sample_host).2, h2.
  split; [exact Hrun |]. split; [| split; [exact Hagain | exact Hdisk]].
  apply Hamended; [| reflexivity | split; reflexivity].
  apply includes_spec. reflexivity.
Defined.

Lemma readable_insert (d : gmap string (option PackageJson)) (file g : string)
    (content content' : PackageJson) :
  d !! file = Some (Some content) →
  author content' = author content →
  readable (<[file := Some content']> d) g ↔ readable d g.
Proof.
  intros Hfile Hauthor. unfold readable.
  destruct (decide (g = file)) as [->|Hne].
  - rewrite lookup_insert_eq, Hfile. split.
    + intros (doc & [= <-] & Hok). eexists. split; [done |].
      intros c [= <-]. rewrite <- Hauthor. by apply Hok.
    + intros (doc & [= <-] & Hok). eexists. split; [done |].
      intros c [= <-]. rewrite Hauthor. by apply Hok.
  - by rewrite lookup_insert_ne.
Qed.

Lemma amend_file_cases (dry yarnInstall : bool) (file : string) (count : nat)
    (h : Host) :
  (¬ readable (disk h) file
   ∧ ∃ e : JsError,
       amend_file dry yarnInstall fstream_body file count h = (Throws e, h))
  ∨ (readable (disk h) file
     ∧ ∃ (count' : nat) (h' : Host),
         amend_file dry yarnInstall fstream_body file count h = (Returns count', h')
         ∧ (disk h' = disk h
            ∨ ∃ content content' : PackageJson,
                disk h !! file = Some (Some content)
                ∧ author content' = author content
                ∧ disk h' = <[file := Some content']> (disk h))).
Proof.
  destruct (disk h !! file) as [[content|]|] eqn:Hfile.
  - destruct (author content) as [[a|]|] eqn:Hauthor.
    + right. split.
      { exists (Some content). split; [done |]. intros c [= <-]. by rewrite Hauthor. }
      unfold amend_file. rewrite Hfile. unfold botpress_author. rewrite Hauthor.
      destruct (String.eqb a ""); [eexists _, _; split; [reflexivity | by left] |].
      destruct (str_includes "botpress" (toLowerCase a));
        [| eexists _, _; split; [reflexivity | by left]].
      unfold fstream_body.
      destruct (add_fstream_resolution content) as [content' save] eqn:Hamend.
      destruct save; simpl; [| eexists _, _; split; [reflexivity | by left]].
      eexists _, _. split; [reflexivity |].
      destruct dry; simpl; [by left |]. right. exists content, content'.
      split; [done |]. split.
      { replace content' with (add_fstream_resolution content).1
          by (by rewrite Hamend).
        apply add_fstream_resolution_author. }
      destruct yarnInstall; [| done].
      unfold yarn_install. simpl. by destruct (yarn_fails h file).
    + left. split.
      { intros (doc & Hdoc & Hok). rewrite Hfile in Hdoc. injection Hdoc as <-.
        by destruct (Hok content eq_refl). }
      unfold amend_file. rewrite Hfile. unfold botpress_author. rewrite Hauthor.
      by eexists.
    + right. split.
      { exists (Some content). split; [done |]. intros c [= <-]. by rewrite Hauthor. }
      unfold amend_file. rewrite Hfile. unfold botpress_author. rewrite Hauthor.
      eexists _, _. split; [reflexivity | by left].
  - right. split; [exists None; split; [done | discriminate] |].
    unfold amend_file. rewrite Hfile.
    eexists _, _. split; [reflexivity | by left].
  - left. split.
    { intros (doc & Hdoc & _). congruence. }
    unfold amend_file. rewrite Hfile. by eexists.
Qed.

Lemma amend_file_readable (dry yarnInstall : bool) (file : string) (count : nat)
    (h : Host) :
  ((∃ (count' : nat) (h' : Host),
      amend_file dry yarnInstall fstream_body file count h = (Returns count', h'))
   ↔ readable (disk h) file)
  ∧ ∀ g : string,
      readable (disk (amend_file dry yarnInstall fstream_body file count h).2) g
      ↔ readable (disk h) g.
Proof.
  destruct (amend_file_cases dry yarnInstall file count h)
    as [(Hno & e & ->) | (Hyes & count' & h' & -> & Hdisk)]; simpl.
  - split; [| done]. split; [intros (c' & h' & [=]) | done].
  - split; [split; [done | by eexists _, _] |].
    intros g. destruct Hdisk as [-> | (content & content' & Hfile & Hauthor & ->)];
      [done |].
    by eapply readable_insert.
Qed.

Lemma amend_all_readable (dry yarnInstall : bool) (files : list string) (count : nat)
    (h : Host) :
  (∃ (count' : nat) (h' : Host),
     amend_all dry yarnInstall fstream_body files count h = (Returns count', h'))
  ↔ Forall (readable (disk h)) files.
Proof.
  revert count h. induction files as [|file files IH]; intros count h; simpl.
  - split; [by constructor | by eexists _, _].
  - rewrite Forall_cons.
    destruct (amend_file_readable dry yarnInstall file count h) as [Hfile Hothers].
    destruct (amend_file dry yarnInstall fstream_body file count h)
      as [[count1|e] h1] eqn:Hstep; simpl in *.
    + rewrite IH. rewrite <- Hfile.
      split.
      * intros Hrest. split; [by eexists _, _ |].
        eapply Forall_impl; [exact Hrest |]. intros g. apply Hothers.
      * intros [_ Hrest].
        eapply Forall_impl; [exact Hrest |]. intros g. apply Hothers.
    + rewrite <- Hfile. split.
      * intros (c' & h' & [=]).
      * intros [(c' & h' & [=]) _].
Qed.

(** A listed file that is missing, or a package whose truthy author is
    not a string, stops the script: it comes to its end only if every
    listed file was there with no such author. Without [--apply], where
    nothing is written and yarn is not run, nothing else can stop it: it
    ends exactly when every listed file is such. *)
Theorem main_ends_only_if_readable (argv files : list string) (h : Host) :
  ((∃ h' : Host, main argv files h = (Returns (), h')) →
   Forall (readable (disk h)) files)
  ∧ ("--apply" ∉ argv →
     Forall (readable (disk h)) files →
     ∃ h' : Host, main argv files h = (Returns (), h')).
Proof.
  assert (Hiff : (∃ h' : Host, main argv files h = (Returns (), h'))
                 ↔ Forall (readable (disk h)) files).
  { rewrite <- (amend_all_readable (IS_DRY_RUN argv) true files 0 h).
    unfold main, amendFiles.
    destruct (amend_all (IS_DRY_RUN argv) true fstream_body files 0 h)
      as [[count|e] h1].
    - split; intros _; eauto.
    - split.
      + intros (h' & [=]).
      + intros (c' & h' & [=]). }
  split; [apply Hiff |]. intros _. apply Hiff.
Qed.

Lemma main_ends_only_if_readable_witness :
  (∃ h' : Host, main [] sample_files sample_host = (Returns (), h'))
  ∧ ¬ ∃ h' : Host, main ["--apply"] sample_files odd_host = (Returns (), h').
Proof.
  split.
  - apply (proj2 (main_ends_only_if_readable [] sample_files sample_host)).
    + apply not_elem_of_nil.
    + repeat constructor;
        (eexists; split; [reflexivity |]; intros c [= <-]; discriminate).
  - intros Hends.
    apply (proj1 (main_ends_only_if_readable ["--apply"] sample_files odd_host))
      in Hends.
    inversion Hends as [|? ? _ Hrest]. inversion Hrest as [|? ? Hb _].
    destruct Hb as (doc & Hdoc & Hok).
    injection Hdoc as <-. exact (Hok object_author_package eq_refl eq_refl).
Defined.

End BatchUpdateFacts.
